(** * estafette-extension-gke: the deployment reconciler

    A shallow embedding of the extension's [main.go]: the command runner,
    the strategy reconciler with its clean-up steps, and the diagnostics
    collector, with the properties the specification states about them and
    further properties read off the code. *)

From Stdlib Require Import ZArith Lia Ascii String.
From stdpp Require Import base strings list gmap pretty.

Local Open Scope Z_scope.
Local Open Scope string_scope.
Local Open Scope list_scope.

(** ** Data model

    Every Go struct is a module holding a record [t], so that the field
    names of the source ([Request], [Limit], [Path], [Namespace], ...) can
    be kept although several structs share them.  Go's [int] is [Z]; no
    arithmetic is performed on these fields, only comparisons with zero. *)

Module CPUParams.
Record t := mk { Request : string; Limit : string }.
End CPUParams.

Module MemoryParams.
Record t := mk { Request : string; Limit : string }.
End MemoryParams.

Module ProbeParams.
Record t := mk { Path : string; InitialDelaySeconds : Z; TimeoutSeconds : Z }.
End ProbeParams.

Module MetricsParams.
Record t := mk { Scrape : string; Path : string; Port : Z }.
End MetricsParams.

Module ContainerParams.
Record t := mk {
  ImageRepository : string;
  ImageName : string;
  ImageTag : string;
  Port : Z;
  CPU : CPUParams.t;
  Memory : MemoryParams.t;
  LivenessProbe : ProbeParams.t;
  ReadinessProbe : ProbeParams.t;
  Metrics : MetricsParams.t }.
End ContainerParams.

Module AutoscaleParams.
Record t := mk { MinReplicas : Z; MaxReplicas : Z; CPUPercentage : Z }.
End AutoscaleParams.

Module RollingUpdateParams.
Record t := mk { MaxSurge : string; MaxUnavailable : string }.
End RollingUpdateParams.

Module SidecarParams.
Record t := mk {
  Type_ : string;
  Image : string;
  CPU : CPUParams.t;
  Memory : MemoryParams.t }.
End SidecarParams.

Module ConfigsParams.
Record t := mk {
  Files : gmap string string;
  MountPath : string;
  RenderedFileContent : gmap string string }.
End ConfigsParams.

Module SecretsParams.
Record t := mk { Keys : gmap string string; MountPath : string }.
End SecretsParams.

Module Params.
Record t := mk {
  Action : string;
  DryRun : bool;
  BuildVersion : string;
  Credentials : string;
  App : string;
  Namespace : string;
  Labels : gmap string string;
  Visibility : string;
  Hosts : list string;
  Basepath : string;
  Autoscale : AutoscaleParams.t;
  RollingUpdate : RollingUpdateParams.t;
  Container : ContainerParams.t;
  Sidecar : SidecarParams.t;
  Configs : ConfigsParams.t;
  Secrets : SecretsParams.t;
  TrustedIPRanges : list string;
  LocalManifests : list string }.
End Params.

(** The zero value [Params{}] of Go. *)
Definition emptyCPU : CPUParams.t := CPUParams.mk "" "".
Definition emptyMemory : MemoryParams.t := MemoryParams.mk "" "".
Definition emptyProbe : ProbeParams.t := ProbeParams.mk "" 0 0.
Definition emptyParams : Params.t :=
  Params.mk "" false "" "" "" "" ∅ "" [] ""
    (AutoscaleParams.mk 0 0 0)
    (RollingUpdateParams.mk "" "")
    (ContainerParams.mk "" "" "" 0 emptyCPU emptyMemory emptyProbe emptyProbe
       (MetricsParams.mk "" "" 0))
    (SidecarParams.mk "" "" emptyCPU emptyMemory)
    (ConfigsParams.mk ∅ "" ∅)
    (SecretsParams.mk ∅ "")
    [] [].

(** The part of [templateData] that [main] reads. *)
Module TemplateData.
Record t := mk { Name : string; Namespace : string; NameWithTrack : string }.
End TemplateData.

(** The part of the selected credential's [AdditionalProperties] that
    [main] reads. *)
Module GKECredentialAdditionalProperties.
Record t := mk { Project : string; Cluster : string; Zone : string; Region : string }.
End GKECredentialAdditionalProperties.

(** ** The command runner and the process state

    [exec.Command(...).Run()] and [.Output()] are the only effects of the
    reconciler.  The outside world is a [Runner]: given the commands started
    so far and the command to start, it answers with the captured standard
    output and whether the command failed.  The process state holds the two
    package-level variables of [main.go] and the list of commands started so
    far, oldest first. *)

Record Command := mkCommand { command : string; args : list string }.

Global Instance Command_eq_dec : EqDecision Command.
Proof. solve_decision. Defined.

Record CmdResult := mkResult { output : string; failed : bool }.

Definition Runner := list Command → Command → CmdResult.

Record State := mkState {
  trace : list Command;
  assistTroubleshootingOnError : bool;
  paramsForTroubleshooting : Params.t }.

(** Lines 38-39: the initial values of the package-level variables. *)
Definition initState : State := mkState [] false emptyParams.

(** Go's [error] values that reach [log.Fatal]. *)
Inductive FatalCause :=
  | CommandFailed (c : Command)
  | NoZoneOrRegion
  | PatchServiceFailed (serviceType : string) (c : Command).

(** [log.Fatal] ends the process: a computation either returns a value or
    has exited fatally. *)
Inductive Outcome (A : Type) :=
  | Return (a : A)
  | Fatal (f : FatalCause).
Arguments Return {A} a.
Arguments Fatal {A} f.

Definition M (A : Type) : Type := State → Outcome A * State.

Definition ret {A} (a : A) : M A := λ st, (Return a, st).

Definition bind {A B} (m : M A) (k : A → M B) : M B :=
  λ st, match m st with
        | (Return a, st') => k a st'
        | (Fatal f, st') => (Fatal f, st')
        end.

Definition logFatal {A} (f : FatalCause) : M A := λ st, (Fatal f, st).

Declare Scope proc_scope.
Delimit Scope proc_scope with proc.
Notation "'do' x <- m 'in' k" := (bind m (λ x, k))
  (at level 10, x name, m at level 99, k at level 200) : proc_scope.
Notation "m >> k" := (bind m (λ _, k))
  (at level 90, right associativity) : proc_scope.
Local Open Scope proc_scope.

Section Reconciler.

Variable runner : Runner.

(** Lines 364-372, [runCommandExtended]: start the command, return its
    error ([Some c] stands for a non-nil error of command [c]). *)
Definition runCommandExtended (cmd : string) (a : list string) : M (option Command) :=
  λ st, let c := mkCommand cmd a in
        (Return (if failed (runner (trace st) c) then Some c else None),
         mkState (trace st ++ [c]) (assistTroubleshootingOnError st)
                 (paramsForTroubleshooting st)).

(** Lines 374-379, [getCommandOutput]. *)
Definition getCommandOutput (cmd : string) (a : list string) : M (string * option Command) :=
  λ st, let c := mkCommand cmd a in
        let r := runner (trace st) c in
        (Return (output r, if failed r then Some c else None),
         mkState (trace st ++ [c]) (assistTroubleshootingOnError st)
                 (paramsForTroubleshooting st)).

(** [c1.Start(); c2.Start(); ...] of lines 262-277: both processes of the
    pipe are started, their errors are ignored. *)
Definition startPipe (c1 c2 : Command) : M unit :=
  λ st, (Return tt,
         mkState (trace st ++ [c1; c2]) (assistTroubleshootingOnError st)
                 (paramsForTroubleshooting st)).

(** The commands of the diagnostics collector, lines 254-263. *)
Definition getObjectsCommand (p : Params.t) : Command :=
  mkCommand "kubectl"
    ["get"; "ing,svc,cm,secret,deploy,pdb,hpa,po,ep"; "-l"; "app=" +:+ Params.App p;
     "-n"; Params.Namespace p].

Definition canaryLogsCommand (p : Params.t) : Command :=
  mkCommand "kubectl"
    ["logs"; "-l"; "app=" +:+ Params.App p +:+ ",track=canary";
     "-n"; Params.Namespace p; "-c"; Params.App p].

Definition getEventsCommand (p : Params.t) : Command :=
  mkCommand "kubectl"
    ["get"; "events"; "--sort-by=.metadata.creationTimestamp"; "-n"; Params.Namespace p].

Definition grepCommand (p : Params.t) : Command :=
  mkCommand "grep" [Params.App p].

(** Lines 251-279, [assistTroubleshooting]. *)
Definition assistTroubleshooting : M unit :=
  λ st,
    if assistTroubleshootingOnError st then
      let p := paramsForTroubleshooting st in
      (runCommandExtended (command (getObjectsCommand p)) (args (getObjectsCommand p)) >>
       (if bool_decide (Params.Action p = "deploy-canary")
        then runCommandExtended (command (canaryLogsCommand p)) (args (canaryLogsCommand p)) >> ret tt
        else ret tt) >>
       startPipe (getEventsCommand p) (grepCommand p)) st
    else (Return tt, st).

(** Lines 352-357, [handleError]. *)
Definition handleError (err : option Command) : M unit :=
  match err with
  | Some c => assistTroubleshooting >> logFatal (CommandFailed c)
  | None => ret tt
  end.

(** Lines 359-362, [runCommand]. *)
Definition runCommand (cmd : string) (a : list string) : M unit :=
  do err <- runCommandExtended cmd a in
  handleError err.

(** Lines 281-284, [scaleCanaryDeployment]. *)
Definition scaleCanaryDeployment (name namespace : string) (replicas : Z) : M unit :=
  runCommand "kubectl"
    ["scale"; "deploy"; name +:+ "-canary"; "-n"; namespace;
     "--replicas=" +:+ pretty replicas].

(** Lines 286-294, [deleteResourcesForTypeSwitch]. *)
Definition deleteResourcesForTypeSwitch (name namespace : string) : M unit :=
  runCommand "kubectl" ["delete"; "deploy"; name; "-n"; namespace; "--ignore-not-found=true"] >>
  runCommand "kubectl" ["delete"; "configmap"; name +:+ "-configs"; "-n"; namespace; "--ignore-not-found=true"] >>
  runCommand "kubectl" ["delete"; "secret"; name +:+ "-secrets"; "-n"; namespace; "--ignore-not-found=true"] >>
  runCommand "kubectl" ["delete"; "hpa"; name; "-n"; namespace; "--ignore-not-found=true"] >>
  runCommand "kubectl" ["delete"; "pdb"; name; "-n"; namespace; "--ignore-not-found=true"].

(** Lines 296-301, [deleteConfigsForParamsChange]. *)
Definition deleteConfigsForParamsChange (params : Params.t) (name namespace : string) : M unit :=
  if bool_decide (size (ConfigsParams.Files (Params.Configs params)) = 0%nat) then
    runCommand "kubectl" ["delete"; "configmap"; name +:+ "-configs"; "-n"; namespace; "--ignore-not-found=true"]
  else ret tt.

(** Lines 303-308, [deleteSecretsForParamsChange]. *)
Definition deleteSecretsForParamsChange (params : Params.t) (name namespace : string) : M unit :=
  if bool_decide (size (SecretsParams.Keys (Params.Secrets params)) = 0%nat) then
    runCommand "kubectl" ["delete"; "secret"; name +:+ "-secrets"; "-n"; namespace; "--ignore-not-found=true"]
  else ret tt.

(** Lines 310-316, [deleteIngressForVisibilityChange]. *)
Definition deleteIngressForVisibilityChange (params : Params.t) (name namespace : string) : M unit :=
  if bool_decide (Params.Visibility params = "public") then
    runCommand "kubectl" ["delete"; "ingress"; name; "-n"; namespace; "--ignore-not-found=true"]
  else ret tt.

(** The JSON patch payloads of lines 328 and 330, written with [dq] for
    the quotation mark. *)
Definition dq : string := String (Ascii.Ascii false true false false false true false false) EmptyString.
Definition quoted (s : string) : string := dq +:+ s +:+ dq.
Definition removeOp (path : string) : string :=
  "{" +:+ quoted "op" +:+ ": " +:+ quoted "remove" +:+ ", " +:+ quoted "path" +:+ ": " +:+ quoted path +:+ "}".
Definition replaceTypeOp : string :=
  "{" +:+ quoted "op" +:+ ": " +:+ quoted "replace" +:+ ", " +:+ quoted "path" +:+ ": " +:+ quoted "/spec/type"
      +:+ ", " +:+ quoted "value" +:+ ": " +:+ quoted "ClusterIP" +:+ "}".
Definition patchWithoutSourceRanges : string :=
  "[" +:+ removeOp "/spec/externalTrafficPolicy" +:+ ", " +:+ removeOp "/spec/ports/0/nodePort" +:+ ", "
      +:+ removeOp "/spec/ports/1/nodePort" +:+ ", " +:+ replaceTypeOp +:+ "]".
Definition patchWithSourceRanges : string :=
  "[" +:+ removeOp "/spec/loadBalancerSourceRanges" +:+ "," +:+ removeOp "/spec/externalTrafficPolicy" +:+ ", "
      +:+ removeOp "/spec/ports/0/nodePort" +:+ ", " +:+ removeOp "/spec/ports/1/nodePort" +:+ ", "
      +:+ replaceTypeOp +:+ "]".

(** Lines 318-339, [patchServiceIfRequired].  A failure of the service-type
    lookup is only logged; a failure of both patches is fatal through
    [log.Fatal] directly, not through [handleError]. *)
Definition patchServiceIfRequired (params : Params.t) (name namespace : string) : M unit :=
  if bool_decide (Params.Visibility params = "private") then
    do r <- getCommandOutput "kubectl" ["get"; "service"; name; "-n"; namespace; "-o=jsonpath={.spec.type}"] in
    let serviceType := r.1 in
    if bool_decide (serviceType = "NodePort") || bool_decide (serviceType = "LoadBalancer") then
      do err <- runCommandExtended "kubectl"
                  ["patch"; "service"; name; "-n"; namespace; "--type"; "json"; "--patch"; patchWithSourceRanges] in
      do err <- match err with
                | Some _ => runCommandExtended "kubectl"
                              ["patch"; "service"; name; "-n"; namespace; "--type"; "json"; "--patch"; patchWithoutSourceRanges]
                | None => ret err
                end in
      match err with
      | Some c => logFatal (PatchServiceFailed serviceType c)
      | None => ret tt
      end
    else ret tt
  else ret tt.

(** Lines 341-350, [removeEstafetteCloudflareAnnotations]. *)
Definition removeEstafetteCloudflareAnnotations (params : Params.t) (name namespace : string) : M unit :=
  if bool_decide (Params.Visibility params = "private") || bool_decide (Params.Visibility params = "iap") then
    runCommand "kubectl" ["annotate"; "svc"; name; "-n"; namespace; "estafette.io/cloudflare-dns-"] >>
    runCommand "kubectl" ["annotate"; "svc"; name; "-n"; namespace; "estafette.io/cloudflare-proxy-"] >>
    runCommand "kubectl" ["annotate"; "svc"; name; "-n"; namespace; "estafette.io/cloudflare-hostnames-"] >>
    runCommand "kubectl" ["annotate"; "svc"; name; "-n"; namespace; "estafette.io/cloudflare-state-"]
  else ret tt.

(** Lines 206-207: the two assignments to the package-level variables. *)
Definition enableTroubleshooting (params : Params.t) : M unit :=
  λ st, (Return tt, mkState (trace st) true params).

(** What [main] has computed when it reaches its first external command
    (line 177): the resolved and validated parameters, whether a template
    was built ([tmpl != nil]), the template data, the service-account email
    and the selected credential.  Lines 42-175 start no command; they end
    the process with [log.Fatal] or produce these values. *)
Record Resolved := mkResolved {
  params : Params.t;
  tmpl : bool;
  templateData : TemplateData.t;
  saClientEmail : string;
  credential : GKECredentialAdditionalProperties.t }.

Definition kubectlApplyArgs (r : Resolved) : list string :=
  ["apply"; "-f"; "/kubernetes.yaml"; "-n"; TemplateData.Namespace (templateData r)].

(** Lines 186-193: the arguments of [gcloud container clusters
    get-credentials]. *)
Definition clustersGetCredentialsArgs (r : Resolved) : M (list string) :=
  let c := credential r in
  let base := ["container"; "clusters"; "get-credentials"; GKECredentialAdditionalProperties.Cluster c] in
  if negb (bool_decide (GKECredentialAdditionalProperties.Zone c = "")) then
    ret (base ++ ["--zone"; GKECredentialAdditionalProperties.Zone c])
  else if negb (bool_decide (GKECredentialAdditionalProperties.Region c = "")) then
    ret (base ++ ["--region"; GKECredentialAdditionalProperties.Region c])
  else logFatal NoZoneOrRegion.

(** Lines 176-248, [main] from its first external command on. *)
Definition main (r : Resolved) : M unit :=
  let name := TemplateData.Name (templateData r) in
  let namespace := TemplateData.Namespace (templateData r) in
  runCommand "gcloud" ["auth"; "activate-service-account"; saClientEmail r; "--key-file"; "/key-file.json"] >>
  runCommand "gcloud" ["config"; "set"; "account"; saClientEmail r] >>
  runCommand "gcloud" ["config"; "set"; "project"; GKECredentialAdditionalProperties.Project (credential r)] >>
  do getCredentialsArgs <- clustersGetCredentialsArgs r in
  runCommand "gcloud" getCredentialsArgs >>
  (if tmpl r then runCommand "kubectl" (kubectlApplyArgs r ++ ["--dry-run"]) else ret tt) >>
  if negb (Params.DryRun (params r)) then
    enableTroubleshooting (params r) >>
    (if tmpl r then
       patchServiceIfRequired (params r) name namespace >>
       runCommand "kubectl" (kubectlApplyArgs r) >>
       runCommand "kubectl" ["rollout"; "status"; "deployment"; TemplateData.NameWithTrack (templateData r); "-n"; namespace]
     else ret tt) >>
    (if bool_decide (Params.Action (params r) = "deploy-canary") then
       scaleCanaryDeployment name namespace 1 >>
       deleteConfigsForParamsChange (params r) (name +:+ "-canary") namespace >>
       deleteSecretsForParamsChange (params r) (name +:+ "-canary") namespace
     else if bool_decide (Params.Action (params r) = "deploy-stable") then
       scaleCanaryDeployment name namespace 0 >>
       deleteResourcesForTypeSwitch name namespace >>
       deleteConfigsForParamsChange (params r) (name +:+ "-stable") namespace >>
       deleteSecretsForParamsChange (params r) (name +:+ "-stable") namespace >>
       deleteIngressForVisibilityChange (params r) name namespace >>
       removeEstafetteCloudflareAnnotations (params r) name namespace
     else if bool_decide (Params.Action (params r) = "rollback-canary") then
       scaleCanaryDeployment name namespace 0
     else if bool_decide (Params.Action (params r) = "deploy-simple") then
       deleteResourcesForTypeSwitch (name +:+ "-canary") namespace >>
       deleteResourcesForTypeSwitch (name +:+ "-stable") namespace >>
       deleteConfigsForParamsChange (params r) name namespace >>
       deleteSecretsForParamsChange (params r) name namespace >>
       deleteIngressForVisibilityChange (params r) name namespace >>
       removeEstafetteCloudflareAnnotations (params r) name namespace
     else ret tt) >>
    assistTroubleshooting
  else ret tt.

End Reconciler.

(** A runner under which every command succeeds and prints nothing, and one
    under which exactly the command [c0] fails. *)
Definition okRunner : Runner := λ _ _, mkResult "" false.
Definition failOn (c0 : Command) : Runner := λ _ c, mkResult "" (bool_decide (c = c0)).

Definition sampleParams (action visibility : string) (dryRun : bool) : Params.t :=
  Params.mk action dryRun "1.0.0" "gke-production" "myapp" "mynamespace" ∅ visibility
    ["gke.estafette.io"] "/"
    (AutoscaleParams.mk 3 100 80)
    (RollingUpdateParams.mk "25%" "25%")
    (ContainerParams.mk "estafette" "my-app" "1.0.0" 5000
       (CPUParams.mk "100m" "150m") (MemoryParams.mk "768Mi" "1024Mi")
       (ProbeParams.mk "/liveness" 30 1) (ProbeParams.mk "/readiness" 0 1)
       (MetricsParams.mk "true" "/metrics" 5000))
    (SidecarParams.mk "openresty" "estafette/openresty-sidecar:1.13.6.1-alpine"
       (CPUParams.mk "10m" "50m") (MemoryParams.mk "10Mi" "50Mi"))
    (ConfigsParams.mk ∅ "/configs" ∅)
    (SecretsParams.mk ∅ "/secrets")
    [] [].

Definition sampleResolved (action visibility : string) (dryRun : bool) : Resolved :=
  mkResolved (sampleParams action visibility dryRun) true
    (TemplateData.mk "myapp" "mynamespace" "myapp")
    "sa@project.iam.gserviceaccount.com"
    (GKECredentialAdditionalProperties.mk "myproject" "production" "europe-west1-c" "").


(** ** Label ingestion and the test helper

    Lines 54-70 of [main.go] fold the environment into the map of
    estafette labels.  [strings.ToLower] maps Unicode letters and is taken
    as given; the other string functions are written out for the arguments
    they are called with. *)

(** [strings.SplitN(e, "=", 2)]: the text before the first [=] and the
    text after it, or [e] alone when it holds no [=]. *)
Fixpoint cutAtEquals (e : string) : option (string * string) :=
  match e with
  | EmptyString => None
  | String c rest =>
      if Ascii.eqb c "="%char then Some (EmptyString, rest)
      else match cutAtEquals rest with
           | Some (name, value) => Some (String c name, value)
           | None => None
           end
  end.

Definition SplitN2 (e : string) : list string :=
  match cutAtEquals e with
  | Some (name, value) => [name; value]
  | None => [e]
  end.

(** [strings.Replace(s, old, new, 1)] for a non-empty [old]: the first
    occurrence of [old] in [s] is replaced. *)
Fixpoint Replace1 (old new s : string) : string :=
  if String.prefix old s
  then new +:+ String.substring (String.length old) (String.length s - String.length old) s
  else match s with
       | EmptyString => EmptyString
       | String c rest => String c (Replace1 old new rest)
       end.

Definition labelPrefix : string := "ESTAFETTE_LABEL_".

Section Labels.

Variable ToLower : string → string.

(** The body of the loop, lines 58-69. *)
Definition addLabel (estafetteLabels : gmap string string) (e : string) : gmap string string :=
  match SplitN2 e with
  | [envvarName; envvarValue] =>
      if String.prefix labelPrefix envvarName
      then <[ToLower (Replace1 labelPrefix "" envvarName) := envvarValue]> estafetteLabels
      else estafetteLabels
  | _ => estafetteLabels
  end.

(** Lines 56-70: the loop over [os.Environ()]. *)
Definition estafetteLabelsOf (environ : list string) : gmap string string :=
  foldl addLabel ∅ environ.

End Labels.

(** [stringArrayContains] of templateBuilder_test.go, lines 102-109. *)
Fixpoint stringArrayContains (array : list string) (search : string) : bool :=
  match array with
  | [] => false
  | v :: rest => if bool_decide (v = search) then true else stringArrayContains rest search
  end.
(** ** Vocabulary for the statements about the reconciler *)

(** The commands the diagnostics collector starts for parameters [p]. *)
Definition diagnosticsCommands (p : Params.t) : list Command :=
  [getObjectsCommand p]
  ++ (if bool_decide (Params.Action p = "deploy-canary") then [canaryLogsCommand p] else [])
  ++ [getEventsCommand p; grepCommand p].

Definition addCommands (cs : list Command) (st : State) : State :=
  mkState (trace st ++ cs) (assistTroubleshootingOnError st) (paramsForTroubleshooting st).

(** A specification of a computation: [Q] relates the states around a run
    that returns, [E] the states around a run that exits fatally. *)
Definition sat {A} (Q : relation State) (E : State → FatalCause → State → Prop)
    (m : M A) : Prop :=
  ∀ st, match m st with
        | (Return _, st') => Q st st'
        | (Fatal f, st') => E st f st'
        end.

Class Composable (Q : relation State) (E : State → FatalCause → State → Prop) : Prop := {
  comp_refl : ∀ st, Q st st;
  comp_trans : ∀ a b c, Q a b → Q b c → Q a c;
  comp_absorb : ∀ a b c f, Q a b → E b f c → E a f c }.

(** [appends b P]: a run that starts with the troubleshooting flag equal to
    [b] leaves the flag and the troubleshooting parameters as they are and
    only adds commands that satisfy [P]. *)
Definition appends (b : bool) (P : Command → Prop) : relation State :=
  λ st st',
    assistTroubleshootingOnError st = b →
    assistTroubleshootingOnError st' = b ∧
    paramsForTroubleshooting st' = paramsForTroubleshooting st ∧
    ∃ cs, trace st' = trace st ++ cs ∧ Forall P cs.

Definition appendsE (b : bool) (P : Command → Prop) : State → FatalCause → State → Prop :=
  λ st _ st', appends b P st st'.


(** The dry-run validation apply of line 200. *)
Definition dryRunApplyCommand (r : Resolved) : Command :=
  mkCommand "kubectl" (kubectlApplyArgs r ++ ["--dry-run"]).

(** The commands that change the cluster: a [kubectl apply] that is not a
    dry run, and [kubectl rollout], [patch], [scale], [delete] and
    [annotate]. *)
Definition isMutating (c : Command) : bool :=
  bool_decide (command c = "kubectl") &&
  match args c with
  | [] => false
  | verb :: rest =>
      if bool_decide (verb = "apply")
      then negb (bool_decide (last rest = Some "--dry-run"))
      else bool_decide (verb ∈ ["rollout"; "patch"; "scale"; "delete"; "annotate"])
  end.

(** The commands of the diagnostics collector, recognised by their shape. *)
Definition isDiagnostic (c : Command) : bool :=
  bool_decide (command c = "grep") ||
  bool_decide (command c = "kubectl") &&
  match args c with
  | verb :: what :: _ =>
      bool_decide (verb = "logs") ||
      bool_decide (verb = "get") &&
      bool_decide (what ∈ ["ing,svc,cm,secret,deploy,pdb,hpa,po,ep"; "events"])
  | _ => false
  end.

(** The [kubectl annotate svc] commands that strip the
    estafette.io/cloudflare annotations from the service. *)
Definition annotateCommands (name namespace : string) : list Command :=
  (λ key, mkCommand "kubectl" ["annotate"; "svc"; name; "-n"; namespace; key]) <$>
  ["estafette.io/cloudflare-dns-"; "estafette.io/cloudflare-proxy-";
   "estafette.io/cloudflare-hostnames-"; "estafette.io/cloudflare-state-"].

Definition isAnnotate (c : Command) : bool :=
  bool_decide (command c = "kubectl") && bool_decide (head (args c) = Some "annotate").

(** Whether a run has stripped the legacy exposure annotations: some
    [kubectl annotate] command was started. *)
Definition stripsAnnotations (tr : list Command) : bool := existsb isAnnotate tr.

(** The specification's sentence on the legacy exposure annotations, for the
    run of [main] on [r] under [runner]: a completed [deploy-stable] or
    [deploy-simple] run strips them if and only if the visibility is
    [public]. *)
Definition StripsIffPublic (runner : Runner) (r : Resolved) : Prop :=
  Params.DryRun (params r) = false →
  Params.Action (params r) = "deploy-stable" ∨ Params.Action (params r) = "deploy-simple" →
  ∀ st, main runner r initState = (Return tt, st) →
        (stripsAnnotations (trace st) = true ↔ Params.Visibility (params r) = "public").

(** The two phases of [main]: lines 176-201, up to and including the
    dry-run validation, and lines 205-247, the body of [if !params.DryRun]. *)
Definition authenticateAndValidate (runner : Runner) (r : Resolved) : M unit :=
  runCommand runner "gcloud" ["auth"; "activate-service-account"; saClientEmail r; "--key-file"; "/key-file.json"] >>
  runCommand runner "gcloud" ["config"; "set"; "account"; saClientEmail r] >>
  runCommand runner "gcloud" ["config"; "set"; "project"; GKECredentialAdditionalProperties.Project (credential r)] >>
  do getCredentialsArgs <- clustersGetCredentialsArgs r in
  runCommand runner "gcloud" getCredentialsArgs >>
  (if tmpl r then runCommand runner "kubectl" (kubectlApplyArgs r ++ ["--dry-run"]) else ret tt).

Definition mutatingPhase (runner : Runner) (r : Resolved) : M unit :=
  let name := TemplateData.Name (templateData r) in
  let namespace := TemplateData.Namespace (templateData r) in
  (if tmpl r then
     patchServiceIfRequired runner (params r) name namespace >>
     runCommand runner "kubectl" (kubectlApplyArgs r) >>
     runCommand runner "kubectl" ["rollout"; "status"; "deployment"; TemplateData.NameWithTrack (templateData r); "-n"; namespace]
   else ret tt) >>
  (if bool_decide (Params.Action (params r) = "deploy-canary") then
     scaleCanaryDeployment runner name namespace 1 >>
     deleteConfigsForParamsChange runner (params r) (name +:+ "-canary") namespace >>
     deleteSecretsForParamsChange runner (params r) (name +:+ "-canary") namespace
   else if bool_decide (Params.Action (params r) = "deploy-stable") then
     scaleCanaryDeployment runner name namespace 0 >>
     deleteResourcesForTypeSwitch runner name namespace >>
     deleteConfigsForParamsChange runner (params r) (name +:+ "-stable") namespace >>
     deleteSecretsForParamsChange runner (params r) (name +:+ "-stable") namespace >>
     deleteIngressForVisibilityChange runner (params r) name namespace >>
     removeEstafetteCloudflareAnnotations runner (params r) name namespace
   else if bool_decide (Params.Action (params r) = "rollback-canary") then
     scaleCanaryDeployment runner name namespace 0
   else if bool_decide (Params.Action (params r) = "deploy-simple") then
     deleteResourcesForTypeSwitch runner (name +:+ "-canary") namespace >>
     deleteResourcesForTypeSwitch runner (name +:+ "-stable") namespace >>
     deleteConfigsForParamsChange runner (params r) name namespace >>
     deleteSecretsForParamsChange runner (params r) name namespace >>
     deleteIngressForVisibilityChange runner (params r) name namespace >>
     removeEstafetteCloudflareAnnotations runner (params r) name namespace
   else ret tt) >>
  assistTroubleshooting runner.

(** The commands [main] starts before it enables troubleshooting: the
    three authentication steps, the cluster-credential step and the dry-run
    validation apply. *)
Definition getCredentialsCommand (r : Resolved) : Command :=
  let c := credential r in
  mkCommand "gcloud"
    (["container"; "clusters"; "get-credentials"; GKECredentialAdditionalProperties.Cluster c]
     ++ (if negb (bool_decide (GKECredentialAdditionalProperties.Zone c = ""))
         then ["--zone"; GKECredentialAdditionalProperties.Zone c]
         else if negb (bool_decide (GKECredentialAdditionalProperties.Region c = ""))
         then ["--region"; GKECredentialAdditionalProperties.Region c]
         else [])).

Definition preGateCommands (r : Resolved) : list Command :=
  [ mkCommand "gcloud" ["auth"; "activate-service-account"; saClientEmail r; "--key-file"; "/key-file.json"];
    mkCommand "gcloud" ["config"; "set"; "account"; saClientEmail r];
    mkCommand "gcloud" ["config"; "set"; "project"; GKECredentialAdditionalProperties.Project (credential r)];
    getCredentialsCommand r;
    dryRunApplyCommand r ].

(** Specifications used for the error paths.  [failsQuietly]: a fatal exit
    from a state with the flag unset leaves it unset, has only started
    commands that are not diagnostics, and, when a command failed, that
    command is the last one started.  [failsWithDiagnostics]: a fatal exit
    through [handleError] from a state with the flag set has started the
    failing command and then the diagnostics.  [failsAfterGate]: the
    fatal cause is not the missing zone or region, and a command whose
    failure is fatal is none of the commands before the gate.
    [failsOnCommand]: the fatal cause is the failure of a command. *)
Definition notDiagnostic (c : Command) : Prop := isDiagnostic c = false.

Definition failsQuietly : State → FatalCause → State → Prop :=
  λ st f st',
    assistTroubleshootingOnError st = false →
    assistTroubleshootingOnError st' = false ∧
    (∃ cs, trace st' = trace st ++ cs ∧ Forall notDiagnostic cs) ∧
    ∀ c, f = CommandFailed c → last (trace st') = Some c.

Definition failsWithDiagnostics : State → FatalCause → State → Prop :=
  λ st f st',
    assistTroubleshootingOnError st = true →
    assistTroubleshootingOnError st' = true ∧
    ∀ c, f = CommandFailed c →
         ∃ before, trace st' = before ++ c :: diagnosticsCommands (paramsForTroubleshooting st).

Definition anyState : relation State := λ _ _, True.

Definition failsAfterGate (r : Resolved) : State → FatalCause → State → Prop :=
  λ _ f _, f ≠ NoZoneOrRegion ∧ ∀ c, f = CommandFailed c → c ∉ preGateCommands r.

Definition failsOnCommand : State → FatalCause → State → Prop :=
  λ _ f _, ∃ c, f = CommandFailed c.

(** ** Vocabulary for the further properties of the reconciler *)

(** The commands before the gate that [main] starts for [r]: the dry-run
    apply is among them only when a template was built. *)
Definition gateCommands (r : Resolved) : list Command :=
  if tmpl r then preGateCommands r else take 4 (preGateCommands r).

(** The commands of [patchServiceIfRequired], lines 320, 328 and 330. *)
Definition serviceTypeCommand (name namespace : string) : Command :=
  mkCommand "kubectl" ["get"; "service"; name; "-n"; namespace; "-o=jsonpath={.spec.type}"].

Definition patchCommand (name namespace payload : string) : Command :=
  mkCommand "kubectl" ["patch"; "service"; name; "-n"; namespace; "--type"; "json"; "--patch"; payload].

Definition isPatch (c : Command) : bool :=
  bool_decide (command c = "kubectl") && bool_decide (head (args c) = Some "patch").

(** The commands whose failure [main] does not survive: they are started
    through [runCommand]. *)
Definition mustSucceed (c : Command) : bool :=
  bool_decide (command c = "gcloud") ||
  bool_decide (command c = "kubectl") &&
  match args c with
  | verb :: _ => bool_decide (verb ∈ ["apply"; "rollout"; "scale"; "delete"; "annotate"])
  | [] => false
  end.

(** The clean-up commands of a completed run, by action: lines 220-245
    with the guards of lines 297, 304, 311 and 342. *)
Definition deleteCommand (kind name namespace : string) : Command :=
  mkCommand "kubectl" ["delete"; kind; name; "-n"; namespace; "--ignore-not-found=true"].

Definition scaleCommand (name namespace : string) (replicas : Z) : Command :=
  mkCommand "kubectl"
    ["scale"; "deploy"; name +:+ "-canary"; "-n"; namespace; "--replicas=" +:+ pretty replicas].

Definition typeSwitchCommands (name namespace : string) : list Command :=
  [ deleteCommand "deploy" name namespace;
    deleteCommand "configmap" (name +:+ "-configs") namespace;
    deleteCommand "secret" (name +:+ "-secrets") namespace;
    deleteCommand "hpa" name namespace;
    deleteCommand "pdb" name namespace ].

Definition paramsChangeCommands (p : Params.t) (name namespace : string) : list Command :=
  (if bool_decide (size (ConfigsParams.Files (Params.Configs p)) = 0%nat)
   then [deleteCommand "configmap" (name +:+ "-configs") namespace] else [])
  ++ (if bool_decide (size (SecretsParams.Keys (Params.Secrets p)) = 0%nat)
      then [deleteCommand "secret" (name +:+ "-secrets") namespace] else []).

Definition exposureCommands (p : Params.t) (name namespace : string) : list Command :=
  (if bool_decide (Params.Visibility p = "public")
   then [deleteCommand "ingress" name namespace] else [])
  ++ (if bool_decide (Params.Visibility p = "private") || bool_decide (Params.Visibility p = "iap")
      then annotateCommands name namespace else []).

Definition cleanupCommands (r : Resolved) : list Command :=
  let p := params r in
  let name := TemplateData.Name (templateData r) in
  let namespace := TemplateData.Namespace (templateData r) in
  if bool_decide (Params.Action p = "deploy-canary") then
    scaleCommand name namespace 1 :: paramsChangeCommands p (name +:+ "-canary") namespace
  else if bool_decide (Params.Action p = "deploy-stable") then
    scaleCommand name namespace 0 :: typeSwitchCommands name namespace
    ++ paramsChangeCommands p (name +:+ "-stable") namespace
    ++ exposureCommands p name namespace
  else if bool_decide (Params.Action p = "rollback-canary") then
    [scaleCommand name namespace 0]
  else if bool_decide (Params.Action p = "deploy-simple") then
    typeSwitchCommands (name +:+ "-canary") namespace
    ++ typeSwitchCommands (name +:+ "-stable") namespace
    ++ paramsChangeCommands p name namespace
    ++ exposureCommands p name namespace
  else [].

(** Every [kubectl delete] carries [--ignore-not-found=true]. *)
Definition deleteIgnoresNotFound (c : Command) : Prop :=
  command c = "kubectl" → head (args c) = Some "delete" →
  last (args c) = Some "--ignore-not-found=true".

(** A [kubectl] command is scoped with [-n] to one of the two namespaces
    [main] knows. *)
Definition namespaced (r : Resolved) (c : Command) : Prop :=
  command c = "kubectl" →
  ∃ i, args c !! i = Some "-n" ∧
       (args c !! S i = Some (TemplateData.Namespace (templateData r)) ∨
        args c !! S i = Some (Params.Namespace (params r))).

(** [scoped r P]: from a state in which a set flag goes with the
    parameters of [r], a run keeps that and only adds commands satisfying
    [P]. *)
Definition flagImplies (r : Resolved) (st : State) : Prop :=
  assistTroubleshootingOnError st = true → paramsForTroubleshooting st = params r.

Definition scoped (r : Resolved) (P : Command → Prop) : relation State :=
  λ st st',
    flagImplies r st →
    flagImplies r st' ∧ ∃ cs, trace st' = trace st ++ cs ∧ Forall P cs.

Definition scopedE (r : Resolved) (P : Command → Prop) : State → FatalCause → State → Prop :=
  λ st _ st', scoped r P st st'.

(** [checked runner]: every command added that must succeed did succeed
    when it was started. *)
Definition checked (runner : Runner) : relation State :=
  λ st st',
    ∃ cs, trace st' = trace st ++ cs ∧
          ∀ i c, cs !! i = Some c → mustSucceed c = true →
                 failed (runner (trace st ++ take i cs) c) = false.

Definition uncheckedE : State → FatalCause → State → Prop := λ _ _ _, True.

(** A list of commands started one after the other through
    [runCommand]. *)
Fixpoint runAll (runner : Runner) (cs : list Command) : M unit :=
  match cs with
  | [] => ret tt
  | c :: rest => runCommand runner (command c) (args c) >> runAll runner rest
  end.

Definition hasZoneOrRegion (r : Resolved) : bool :=
  negb (bool_decide (GKECredentialAdditionalProperties.Zone (credential r) = ""))
  || negb (bool_decide (GKECredentialAdditionalProperties.Region (credential r) = "")).

(** A credential that names neither a zone nor a region. *)
Definition noZoneResolved : Resolved :=
  mkResolved (sampleParams "deploy-simple" "private" false) true
    (TemplateData.mk "myapp" "mynamespace" "myapp")
    "sa@project.iam.gserviceaccount.com"
    (GKECredentialAdditionalProperties.mk "myproject" "production" "" "").

(** The real apply and the rollout wait of lines 213 and 216. *)
Definition applyCommand (r : Resolved) : Command :=
  mkCommand "kubectl" (kubectlApplyArgs r).

Definition rolloutCommand (r : Resolved) : Command :=
  mkCommand "kubectl"
    ["rollout"; "status"; "deployment"; TemplateData.NameWithTrack (templateData r);
     "-n"; TemplateData.Namespace (templateData r)].

(** A runner that reports the existing service as a [LoadBalancer] and
    under which both patches fail. *)
Definition loadBalancerPatchesFail : Runner :=
  λ _ c, mkResult (if bool_decide (head (args c) = Some "get") then "LoadBalancer" else "")
                  (isPatch c).
(** ** Reasoning about the reconciler *)

Section Specs.

Variable runner : Runner.

Lemma bind_Return {A B} (m : M A) (k : A → M B) st b st' :
  bind m k st = (Return b, st') →
  ∃ a st1, m st = (Return a, st1) ∧ k a st1 = (Return b, st').
Proof.
  unfold bind. destruct (m st) as [[a|f] st1]; [eauto | discriminate].
Qed.

Lemma bind_Fatal {A B} (m : M A) (k : A → M B) st f st' :
  bind m k st = (Fatal f, st') →
  m st = (Fatal f, st') ∨ ∃ a st1, m st = (Return a, st1) ∧ k a st1 = (Fatal f, st').
Proof.
  unfold bind. destruct (m st) as [[a|f0] st1]; [eauto | left; congruence].
Qed.

Lemma sat_ret Q E `{!Composable Q E} {A} (a : A) : sat Q E (ret a).
Proof. intros st. apply comp_refl. Qed.

Lemma sat_bind Q E `{!Composable Q E} {A B} (m : M A) (k : A → M B) :
  sat Q E m → (∀ a, sat Q E (k a)) → sat Q E (bind m k).
Proof.
  intros Hm Hk st. unfold bind. specialize (Hm st).
  destruct (m st) as [[a|f] st1]; [|exact Hm].
  specialize (Hk a st1). destruct (k a st1) as [[b|f] st2].
  - eapply comp_trans; eauto.
  - eapply comp_absorb; eauto.
Qed.

(** The exact behaviour of the two functions every command goes through. *)
Lemma assistTroubleshooting_eq st :
  assistTroubleshooting runner st =
  (Return tt,
   if assistTroubleshootingOnError st
   then addCommands (diagnosticsCommands (paramsForTroubleshooting st)) st
   else st).
Proof.
  unfold assistTroubleshooting, diagnosticsCommands, addCommands.
  destruct (assistTroubleshootingOnError st) eqn:Hflag; [|done].
  unfold bind, runCommandExtended, startPipe, ret; simpl.
  case_bool_decide; simpl; rewrite Hflag, <- ?app_assoc; done.
Qed.

Lemma runCommand_eq cmd a st :
  runCommand runner cmd a st =
  let c := mkCommand cmd a in
  if failed (runner (trace st) c)
  then (Fatal (CommandFailed c),
        if assistTroubleshootingOnError st
        then addCommands (c :: diagnosticsCommands (paramsForTroubleshooting st)) st
        else addCommands [c] st)
  else (Return tt, addCommands [c] st).
Proof.
  unfold runCommand, bind, runCommandExtended; simpl.
  destruct (failed _); simpl; [|done].
  unfold bind. rewrite assistTroubleshooting_eq; simpl.
  unfold logFatal, addCommands; simpl.
  destruct (assistTroubleshootingOnError st); simpl; [|done].
  by rewrite <- app_assoc.
Qed.

Lemma runCommand_Return cmd a st st' :
  runCommand runner cmd a st = (Return tt, st') →
  st' = addCommands [mkCommand cmd a] st.
Proof.
  rewrite runCommand_eq; simpl. destruct (failed _); [discriminate | congruence].
Qed.

End Specs.

Global Instance appends_composable b P : Composable (appends b P) (appendsE b P).
Proof.
  assert (Htrans : ∀ x y z, appends b P x y → appends b P y z → appends b P x z).
  { intros x y z Hxy Hyz Hx.
    destruct (Hxy Hx) as (Hy & Hp & cs & Ht & Hcs).
    destruct (Hyz Hy) as (Hz & Hp' & cs' & Ht' & Hcs').
    split; [done|]. split; [congruence|].
    exists (cs ++ cs'). rewrite Ht', Ht, app_assoc. split; [done|].
    by apply Forall_app. }
  split.
  - intros st Hst. repeat split; try done. exists []. by rewrite app_nil_r.
  - exact Htrans.
  - intros x y z f. apply Htrans.
Qed.

Lemma appends_addCommands b P cs st :
  Forall P cs → appends b P st (addCommands cs st).
Proof. intros Hcs Hst. unfold addCommands; simpl. eauto. Qed.

Section AppendsSpecs.

Variable runner : Runner.
Variable b : bool.
Variable P : Command → Prop.
Hypothesis diagnostics_ok : b = true → ∀ p, Forall P (diagnosticsCommands p).

Lemma appends_runCommand cmd a :
  P (mkCommand cmd a) → sat (appends b P) (appendsE b P) (runCommand runner cmd a).
Proof.
  intros Hc st. rewrite runCommand_eq; simpl.
  destruct (failed _); [|by apply appends_addCommands; auto].
  unfold appendsE. destruct (assistTroubleshootingOnError st) eqn:Hflag.
  - intros Hb. apply appends_addCommands; [|done].
    constructor; [done|]. apply diagnostics_ok. congruence.
  - apply appends_addCommands. auto.
Qed.

Lemma appends_runCommandExtended cmd a :
  P (mkCommand cmd a) → sat (appends b P) (appendsE b P) (runCommandExtended runner cmd a).
Proof. intros Hc st. simpl. apply (appends_addCommands b P [_]). auto. Qed.

Lemma appends_getCommandOutput cmd a :
  P (mkCommand cmd a) → sat (appends b P) (appendsE b P) (getCommandOutput runner cmd a).
Proof. intros Hc st. simpl. apply (appends_addCommands b P [_]). auto. Qed.

Lemma appends_logFatal {A} f : sat (appends b P) (appendsE b P) (@logFatal A f).
Proof. intros st. simpl. apply (comp_refl (Q:=appends b P)). Qed.

Lemma appends_assistTroubleshooting :
  sat (appends b P) (appendsE b P) (assistTroubleshooting runner).
Proof.
  intros st. rewrite assistTroubleshooting_eq.
  destruct (assistTroubleshootingOnError st) eqn:Hflag;
    [|apply (comp_refl (E:=appendsE b P))].
  intros Hb. apply appends_addCommands; [|done]. apply diagnostics_ok. congruence.
Qed.

End AppendsSpecs.

(** Decomposition of a computation along its binds and conditionals. *)
Ltac sat_step :=
  lazymatch goal with
  | |- sat _ _ (bind _ _) => apply sat_bind; [apply _ | | intros ?]
  | |- sat _ _ (ret _) => apply sat_ret; apply _
  | |- sat _ _ (if ?c then _ else _) => destruct c eqn:?
  | |- sat _ _ (match ?e with _ => _ end) => destruct e eqn:?
  end.

Ltac unfold_reconciler :=
  unfold scaleCanaryDeployment, deleteResourcesForTypeSwitch,
    deleteConfigsForParamsChange, deleteSecretsForParamsChange,
    deleteIngressForVisibilityChange, removeEstafetteCloudflareAnnotations,
    patchServiceIfRequired, clustersGetCredentialsArgs, handleError.

(** ** Shared facts: command lists and the service patch *)

Lemma State_eq (a b : State) :
  trace a = trace b →
  assistTroubleshootingOnError a = assistTroubleshootingOnError b →
  paramsForTroubleshooting a = paramsForTroubleshooting b →
  a = b.
Proof. destruct a, b; simpl; congruence. Qed.

Lemma addCommands_addCommands cs cs' st :
  addCommands cs' (addCommands cs st) = addCommands (cs ++ cs') st.
Proof. unfold addCommands; simpl. by rewrite <- app_assoc. Qed.

Lemma addCommands_nil st : addCommands [] st = st.
Proof. unfold addCommands. rewrite app_nil_r. by destruct st. Qed.

Section Gate.

Variable runner : Runner.

Lemma runAll_quiet cs st :
  assistTroubleshootingOnError st = false →
  match runAll runner cs st with
  | (Return _, st') =>
      st' = addCommands cs st ∧
      ∀ i c, cs !! i = Some c → failed (runner (trace st ++ take i cs) c) = false
  | (Fatal f, st') =>
      ∃ k c, cs !! k = Some c ∧ f = CommandFailed c ∧
             st' = addCommands (take (S k) cs) st ∧
             failed (runner (trace st ++ take k cs) c) = true ∧
             ∀ i c', (i < k)%nat → cs !! i = Some c' →
                     failed (runner (trace st ++ take i cs) c') = false
  end.
Proof.
  revert st. induction cs as [|c cs IH]; intros st Hflag; simpl.
  - split.
    + unfold addCommands. rewrite app_nil_r. by destruct st.
    + intros i c Hi. by rewrite lookup_nil in Hi.
  - unfold bind. rewrite runCommand_eq; simpl. destruct c as [cmd a]; simpl.
    destruct (failed (runner (trace st) (mkCommand cmd a))) eqn:Hfailed.
    + rewrite Hflag. exists 0%nat, (mkCommand cmd a). simpl.
      rewrite app_nil_r. repeat split; try done. intros i c' Hi. lia.
    + specialize (IH (addCommands [mkCommand cmd a] st) Hflag).
      destruct (runAll runner cs (addCommands [mkCommand cmd a] st)) as [[[]|f] st'].
      * destruct IH as [-> IH]. split.
        { unfold addCommands; simpl. by rewrite <- app_assoc. }
        intros [|i] c Hi; simpl in Hi.
        { injection Hi as <-. simpl. by rewrite app_nil_r. }
        specialize (IH i c Hi). simpl in IH. rewrite <- app_assoc in IH. exact IH.
      * destruct IH as (k & c & Hk & -> & -> & Hfail & Hbefore).
        exists (S k), c. split; [exact Hk|]. split; [done|].
        split; [unfold addCommands; simpl; by rewrite <- app_assoc|].
        split; [simpl in Hfail; rewrite <- app_assoc in Hfail; exact Hfail|].
        intros [|i] c' Hlt Hi; simpl in Hi.
        { injection Hi as <-. simpl. by rewrite app_nil_r. }
        assert (Hik : (i < k)%nat) by lia.
        specialize (Hbefore i c' Hik Hi). simpl in Hbefore.
        rewrite <- app_assoc in Hbefore. exact Hbefore.
Qed.

Lemma authenticateAndValidate_runAll r st :
  authenticateAndValidate runner r st =
  (if hasZoneOrRegion r
   then runAll runner (gateCommands r)
   else runAll runner (take 3 (preGateCommands r)) >> logFatal NoZoneOrRegion) st.
Proof.
  unfold authenticateAndValidate, hasZoneOrRegion, gateCommands, preGateCommands,
    getCredentialsCommand, dryRunApplyCommand, clustersGetCredentialsArgs.
  destruct (negb (bool_decide (GKECredentialAdditionalProperties.Zone (credential r) = "")));
    [|destruct (negb (bool_decide (GKECredentialAdditionalProperties.Region (credential r) = "")))];
    destruct (tmpl r); simpl; unfold bind, ret, logFatal;
    repeat match goal with
           | |- context [match runCommand runner ?c ?a ?s with _ => _ end] =>
               destruct (runCommand runner c a s) as [[[]|?] ?]
           end; reflexivity.
Qed.

End Gate.

Lemma gateCommands_subseteq r : gateCommands r ⊆ preGateCommands r.
Proof. unfold gateCommands. destruct (tmpl r); [done|apply subseteq_take]. Qed.

Lemma patchService_eq runner p name namespace st :
  patchServiceIfRequired runner p name namespace st =
  let lookup := serviceTypeCommand name namespace in
  let first := patchCommand name namespace patchWithSourceRanges in
  let second := patchCommand name namespace patchWithoutSourceRanges in
  let serviceType := output (runner (trace st) lookup) in
  if bool_decide (Params.Visibility p = "private") then
    if bool_decide (serviceType = "NodePort") || bool_decide (serviceType = "LoadBalancer") then
      if failed (runner (trace st ++ [lookup]) first) then
        if failed (runner (trace st ++ [lookup; first]) second)
        then (Fatal (PatchServiceFailed serviceType second),
              addCommands [lookup; first; second] st)
        else (Return tt, addCommands [lookup; first; second] st)
      else (Return tt, addCommands [lookup; first] st)
    else (Return tt, addCommands [lookup] st)
  else (Return tt, st).
Proof.
  unfold patchServiceIfRequired. cbv zeta.
  destruct (bool_decide (Params.Visibility p = "private")); [|done].
  unfold bind, getCommandOutput, runCommandExtended, ret, logFatal, addCommands,
    serviceTypeCommand, patchCommand.
  cbv beta iota zeta delta [trace assistTroubleshootingOnError paramsForTroubleshooting fst snd].
  destruct (_ || _); [|done].
  rewrite <- ?app_assoc. simpl app.
  repeat match goal with
         | |- context [failed ?x] => destruct (failed x)
         end; rewrite <- ?app_assoc; done.
Qed.

(** ** The dry-run gate *)

Section DryRun.

Variable runner : Runner.
Variable r : Resolved.

Let quiet (c : Command) : Prop :=
  isMutating c = false ∧ (command c = "kubectl" → c = dryRunApplyCommand r).

Lemma dry_run_main_appends :
  Params.DryRun (params r) = true →
  sat (appends false quiet) (appendsE false quiet) (main runner r).
Proof.
  intros Hdry. unfold main. rewrite Hdry. simpl negb. cbv iota.
  unfold_reconciler.
  repeat sat_step;
    try (apply appends_logFatal);
    try (apply appends_runCommand; [discriminate|]);
    split; try done; try (intros; discriminate).
Qed.

End DryRun.

(** C1. When the dry-run flag of the configuration is set, whatever the
    action, the visibility and the answers of the command runner, no command
    that [main] starts changes the cluster (no real apply, rollout, patch,
    scale, delete or annotate), and the only [kubectl] command it may start
    is the dry-run validation apply. *)
Theorem dry_run_issues_no_mutating_command (runner : Runner) (r : Resolved) :
  Params.DryRun (params r) = true →
  Forall (λ c, isMutating c = false ∧ (command c = "kubectl" → c = dryRunApplyCommand r))
         (trace (main runner r initState).2).
Proof.
  intros Hdry.
  pose proof (dry_run_main_appends runner r Hdry initState) as H.
  destruct (main runner r initState) as [[[]|f] st]; simpl;
    destruct (H eq_refl) as (_ & _ & cs & -> & Hcs); exact Hcs.
Qed.

Lemma dry_run_issues_no_mutating_command_witness :
  Forall (λ c, isMutating c = false ∧
               (command c = "kubectl" →
                c = dryRunApplyCommand (sampleResolved "deploy-simple" "public" true)))
         (trace (main okRunner (sampleResolved "deploy-simple" "public" true) initState).2).
Proof. apply dry_run_issues_no_mutating_command. reflexivity. Defined.

(** ** Diagnostics on success *)

Ltac peel H :=
  let a := fresh "a" in
  let st := fresh "st" in
  let Hstep := fresh "Hstep" in
  apply bind_Return in H as (a & st & Hstep & H);
  lazymatch type of a with
  | unit => destruct a
  | _ => idtac
  end.

(** Any part of the reconciler that neither assigns the package-level
    variables nor is singled out below: it keeps the flag and the
    troubleshooting parameters. *)
Ltac frame_of H b P :=
  lazymatch type of H with
  | ?m ?s = (Return _, _) =>
      let Hs := fresh "Hframe" in
      assert (Hs : sat (appends b P) (appendsE b P) m);
      [ | specialize (Hs s); rewrite H in Hs ]
  end.

(** C10. A run that is not a dry run and returns normally has ended with
    the diagnostics collector: the listing of the labelled objects, the
    canary logs exactly when the action is [deploy-canary], and the event
    stream piped through [grep]. *)
Theorem diagnostics_run_on_success (runner : Runner) (r : Resolved) (st : State) :
  Params.DryRun (params r) = false →
  main runner r initState = (Return tt, st) →
  ∃ before,
    trace st =
      before ++ [getObjectsCommand (params r)]
             ++ (if bool_decide (Params.Action (params r) = "deploy-canary")
                 then [canaryLogsCommand (params r)] else [])
             ++ [getEventsCommand (params r); grepCommand (params r)].
Proof.
  intros Hdry Hmain. unfold main in Hmain. rewrite Hdry in Hmain.
  simpl negb in Hmain. cbv iota in Hmain.
  do 7 peel Hmain. peel Hmain. peel Hmain.
  unfold enableTroubleshooting in Hstep5. injection Hstep5 as <-.
  assert (Hall : ∀ p, Forall (λ _ : Command, True) (diagnosticsCommands p)).
  { intros. apply Forall_forall. done. }
  frame_of Hstep6 true (λ _ : Command, True).
  { unfold_reconciler.
    repeat sat_step; first
      [ apply appends_runCommand | apply appends_runCommandExtended
      | apply appends_getCommandOutput | apply appends_logFatal ]; auto. }
  frame_of Hstep7 true (λ _ : Command, True).
  { unfold_reconciler.
    repeat sat_step; first
      [ apply appends_runCommand | apply appends_logFatal ]; auto. }
  destruct (Hframe eq_refl) as (Hflag1 & Hp1 & _).
  destruct (Hframe0 Hflag1) as (Hflag2 & Hp2 & _).
  rewrite assistTroubleshooting_eq, Hflag2 in Hmain.
  injection Hmain as <-. simpl.
  rewrite Hp2, Hp1. simpl. eauto.
Qed.

Lemma diagnostics_run_on_success_witness :
  ∃ before,
    trace (main okRunner (sampleResolved "deploy-canary" "private" false) initState).2 =
      before ++ [getObjectsCommand (sampleParams "deploy-canary" "private" false)]
             ++ [canaryLogsCommand (sampleParams "deploy-canary" "private" false)]
             ++ [getEventsCommand (sampleParams "deploy-canary" "private" false);
                 grepCommand (sampleParams "deploy-canary" "private" false)].
Proof.
  apply (diagnostics_run_on_success okRunner
           (sampleResolved "deploy-canary" "private" false)).
  - reflexivity.
  - vm_compute. reflexivity.
Defined.

(** ** The legacy exposure annotations *)

Lemma filter_isAnnotate_nil cs :
  Forall (λ c, isAnnotate c = false) cs → List.filter isAnnotate cs = [].
Proof.
  induction 1 as [|c cs Hc _ IH]; simpl; [done|]. by rewrite Hc.
Qed.

Lemma diagnostics_not_annotate p :
  Forall (λ c, isAnnotate c = false) (diagnosticsCommands p).
Proof.
  unfold diagnosticsCommands. case_bool_decide; repeat constructor.
Qed.

Lemma appends_filter_isAnnotate b st st' :
  appends b (λ c, isAnnotate c = false) st st' →
  assistTroubleshootingOnError st = b →
  assistTroubleshootingOnError st' = b ∧
  paramsForTroubleshooting st' = paramsForTroubleshooting st ∧
  List.filter isAnnotate (trace st') = List.filter isAnnotate (trace st).
Proof.
  intros H Hb. destruct (H Hb) as (Hb' & Hp & cs & -> & Hcs).
  rewrite List.filter_app, (filter_isAnnotate_nil cs Hcs), app_nil_r. done.
Qed.

Lemma existsb_filter {A} (f : A → bool) (l : list A) :
  existsb f l = match List.filter f l with [] => false | _ => true end.
Proof.
  induction l as [|x l IH]; simpl; [done|]. destruct (f x); simpl; done.
Qed.

(** A step that starts no [kubectl annotate] command. *)
Ltac not_annotating H b :=
  let Hs := fresh "Hframe" in
  lazymatch type of H with
  | ?m ?s = (Return _, _) =>
      assert (Hs : sat (appends b (λ c, isAnnotate c = false))
                       (appendsE b (λ c, isAnnotate c = false)) m);
      [ unfold_reconciler;
        repeat sat_step; first
          [ apply appends_runCommand | apply appends_runCommandExtended
          | apply appends_getCommandOutput | apply appends_logFatal ];
        solve [ auto using diagnostics_not_annotate ]
      | specialize (Hs s); rewrite H in Hs; clear H;
        apply appends_filter_isAnnotate in Hs;
        [ destruct Hs as (? & ? & ?) | solve [ assumption | reflexivity ] ] ]
  end.

Lemma removeAnnotations_Return runner p name namespace st st' :
  removeEstafetteCloudflareAnnotations runner p name namespace st = (Return tt, st') →
  st' = addCommands
          (if bool_decide (Params.Visibility p = "private") || bool_decide (Params.Visibility p = "iap")
           then annotateCommands name namespace else []) st.
Proof.
  unfold removeEstafetteCloudflareAnnotations. intros H.
  destruct (_ || _).
  - do 3 peel H.
    apply runCommand_Return in Hstep, Hstep0, Hstep1, H. subst.
    unfold addCommands; simpl. by rewrite <- !app_assoc.
  - injection H as <-. unfold addCommands. rewrite app_nil_r. by destruct st.
Qed.

(** C2, as the code has it.  A [deploy-stable] or [deploy-simple] run that
    is not a dry run and returns normally has started exactly the four
    [kubectl annotate svc] commands when the visibility is [private] or
    [iap], and no [kubectl annotate] command otherwise: the annotations are
    stripped if and only if the visibility is [private] or [iap]. *)
Theorem legacy_annotations_stripped_iff_private_or_iap
    (runner : Runner) (r : Resolved) (st : State) :
  Params.DryRun (params r) = false →
  Params.Action (params r) = "deploy-stable" ∨ Params.Action (params r) = "deploy-simple" →
  main runner r initState = (Return tt, st) →
  List.filter isAnnotate (trace st) =
    (if bool_decide (Params.Visibility (params r) = "private")
        || bool_decide (Params.Visibility (params r) = "iap")
     then annotateCommands (TemplateData.Name (templateData r))
                           (TemplateData.Namespace (templateData r))
     else [])
  ∧ (stripsAnnotations (trace st) = true ↔
     Params.Visibility (params r) = "private" ∨ Params.Visibility (params r) = "iap").
Proof.
  intros Hdry Hact Hmain.
  assert (Hfilter : List.filter isAnnotate (trace st) =
    (if bool_decide (Params.Visibility (params r) = "private")
        || bool_decide (Params.Visibility (params r) = "iap")
     then annotateCommands (TemplateData.Name (templateData r))
                           (TemplateData.Namespace (templateData r))
     else [])).
  { unfold main in Hmain. rewrite Hdry in Hmain.
    simpl negb in Hmain. cbv iota in Hmain.
    do 9 peel Hmain.
    not_annotating Hstep false. not_annotating Hstep0 false.
    not_annotating Hstep1 false. not_annotating Hstep2 false.
    not_annotating Hstep3 false. not_annotating Hstep4 false.
    injection Hstep5 as <-.
    not_annotating Hstep6 true.
    assert (Hclean : ∃ st9,
      assistTroubleshootingOnError st9 = true ∧
      paramsForTroubleshooting st9 = params r ∧
      List.filter isAnnotate (trace st9) = [] ∧
      removeEstafetteCloudflareAnnotations runner (params r)
        (TemplateData.Name (templateData r)) (TemplateData.Namespace (templateData r)) st9
      = (Return tt, st8)).
    { destruct Hact as [Hact|Hact]; rewrite Hact in Hstep7;
        repeat (rewrite bool_decide_eq_false_2 in Hstep7 by discriminate);
        rewrite bool_decide_eq_true_2 in Hstep7 by reflexivity;
        cbv iota in Hstep7.
      all: do 5 peel Hstep7.
      all: not_annotating Hstep true; not_annotating Hstep0 true;
           not_annotating Hstep1 true; not_annotating Hstep2 true;
           not_annotating Hstep3 true.
      all: eexists; split; [eassumption|]; split; [|split; [|exact Hstep7]].
      all: simpl in *; congruence. }
    destruct Hclean as (st9 & Hflag & Hp & Hnil & Hrm).
    apply removeAnnotations_Return in Hrm. subst st8.
    rewrite assistTroubleshooting_eq in Hmain. simpl in Hmain.
    rewrite Hflag in Hmain. injection Hmain as <-. simpl.
    rewrite !List.filter_app, Hnil.
    rewrite (filter_isAnnotate_nil _ (diagnostics_not_annotate _)), app_nil_r. simpl.
    destruct (_ || _); reflexivity. }
  split; [exact Hfilter|].
  unfold stripsAnnotations. rewrite existsb_filter, Hfilter.
  destruct (bool_decide_reflect (Params.Visibility (params r) = "private")),
           (bool_decide_reflect (Params.Visibility (params r) = "iap"));
    simpl; intuition congruence.
Qed.

Lemma legacy_annotations_stripped_iff_private_or_iap_witness :
  List.filter isAnnotate
    (trace (main okRunner (sampleResolved "deploy-stable" "iap" false) initState).2) =
  annotateCommands "myapp" "mynamespace"
  ∧ (stripsAnnotations
       (trace (main okRunner (sampleResolved "deploy-stable" "iap" false) initState).2) = true ↔
     "iap" = "private" ∨ "iap" = "iap").
Proof.
  apply (legacy_annotations_stripped_iff_private_or_iap okRunner
           (sampleResolved "deploy-stable" "iap" false)).
  - reflexivity.
  - left. reflexivity.
  - vm_compute. reflexivity.
Defined.

(** C2, as the specification words it, fails on the code: a completed
    [deploy-stable] run with visibility [public] starts no
    [kubectl annotate] command, and the same run with visibility [private]
    starts them. *)
Lemma strips_iff_public_counterexample :
  ¬ StripsIffPublic okRunner (sampleResolved "deploy-stable" "public" false)
  ∧ ¬ StripsIffPublic okRunner (sampleResolved "deploy-stable" "private" false).
Proof.
  split; intros H.
  - assert (Hrun : main okRunner (sampleResolved "deploy-stable" "public" false) initState =
                   (Return tt, (main okRunner (sampleResolved "deploy-stable" "public" false) initState).2))
      by (vm_compute; reflexivity).
    destruct (H eq_refl (or_introl eq_refl) _ Hrun) as [_ Hpub].
    specialize (Hpub eq_refl). vm_compute in Hpub. discriminate Hpub.
  - assert (Hrun : main okRunner (sampleResolved "deploy-stable" "private" false) initState =
                   (Return tt, (main okRunner (sampleResolved "deploy-stable" "private" false) initState).2))
      by (vm_compute; reflexivity).
    destruct (H eq_refl (or_introl eq_refl) _ Hrun) as [Hpriv _].
    assert (Hstrip : stripsAnnotations
              (trace (main okRunner (sampleResolved "deploy-stable" "private" false) initState).2) = true)
      by (vm_compute; reflexivity).
    specialize (Hpriv Hstrip). discriminate Hpriv.
Qed.

(** ** Diagnostics on failure *)

Lemma main_phases runner r st :
  main runner r st =
  (authenticateAndValidate runner r >>
   if negb (Params.DryRun (params r))
   then enableTroubleshooting (params r) >> mutatingPhase runner r
   else ret tt) st.
Proof.
  unfold main, authenticateAndValidate, mutatingPhase, bind.
  repeat match goal with
         | |- context [match ?m ?s with _ => _ end] =>
             lazymatch m with
             | runCommand _ _ _ => destruct (m s) as [[[]|?] ?]
             | clustersGetCredentialsArgs _ => destruct (m s) as [[?|?] ?]
             end
         end; try reflexivity.
  all: destruct (tmpl r); simpl;
    repeat match goal with
           | |- context [match ?m ?s with _ => _ end] =>
               lazymatch m with
               | runCommand _ _ _ => destruct (m s) as [[[]|?] ?]
               end
           end; try reflexivity.
Qed.

Global Instance failsQuietly_composable :
  Composable (appends false notDiagnostic) failsQuietly.
Proof.
  split.
  - apply (comp_refl (E:=appendsE false notDiagnostic)).
  - apply (comp_trans (E:=appendsE false notDiagnostic)).
  - intros x y z f Hxy Hyz Hx.
    destruct (Hxy Hx) as (Hy & _ & cs & Ht & Hcs).
    destruct (Hyz Hy) as (Hz & (cs' & Ht' & Hcs') & Hlast).
    split; [done|]. split; [|done].
    exists (cs ++ cs'). rewrite Ht', Ht, app_assoc. split; [done|].
    by apply Forall_app.
Qed.

Global Instance failsWithDiagnostics_composable :
  Composable (appends true (λ _, True)) failsWithDiagnostics.
Proof.
  split.
  - apply (comp_refl (E:=appendsE true (λ _, True))).
  - apply (comp_trans (E:=appendsE true (λ _, True))).
  - intros x y z f Hxy Hyz Hx.
    destruct (Hxy Hx) as (Hy & Hp & _).
    destruct (Hyz Hy) as (Hz & Hdiag).
    split; [done|]. intros c Hc. rewrite <- Hp. auto.
Qed.

Global Instance failsAfterGate_composable r : Composable anyState (failsAfterGate r).
Proof. split; unfold anyState, failsAfterGate; auto. Qed.

Global Instance failsOnCommand_composable : Composable anyState failsOnCommand.
Proof. split; unfold anyState, failsOnCommand; auto. Qed.

Section ErrorPathSpecs.

Variable runner : Runner.

Lemma sat_runCommand Q E cmd a :
  (∀ st, Q st (addCommands [mkCommand cmd a] st)) →
  (∀ st, E st (CommandFailed (mkCommand cmd a))
           (if assistTroubleshootingOnError st
            then addCommands (mkCommand cmd a :: diagnosticsCommands (paramsForTroubleshooting st)) st
            else addCommands [mkCommand cmd a] st)) →
  sat Q E (runCommand runner cmd a).
Proof.
  intros HQ HE st. rewrite runCommand_eq; simpl. destruct (failed _); auto.
Qed.

Lemma quiet_runCommand cmd a :
  notDiagnostic (mkCommand cmd a) →
  sat (appends false notDiagnostic) failsQuietly (runCommand runner cmd a).
Proof.
  intros Hc. apply sat_runCommand; intros st.
  - apply appends_addCommands. auto.
  - intros Hflag. rewrite Hflag. unfold addCommands; simpl.
    split; [done|]. split; [eauto|].
    intros c [= <-]. apply last_snoc.
Qed.

Lemma quiet_logFatal {A} f :
  (∀ c, f ≠ CommandFailed c) →
  sat (appends false notDiagnostic) failsQuietly (@logFatal A f).
Proof.
  intros Hf st; simpl. intros Hflag. split; [done|]. split.
  - exists []. by rewrite app_nil_r.
  - intros c ->. by destruct (Hf c).
Qed.

Lemma loud_runCommand cmd a :
  sat (appends true (λ _, True)) failsWithDiagnostics (runCommand runner cmd a).
Proof.
  apply sat_runCommand; intros st.
  - apply appends_addCommands. auto.
  - intros Hflag. rewrite Hflag. unfold addCommands; simpl.
    split; [done|]. intros c [= <-]. eauto.
Qed.

Lemma loud_runCommandExtended cmd a :
  sat (appends true (λ _, True)) failsWithDiagnostics (runCommandExtended runner cmd a).
Proof. intros st; simpl. apply (appends_addCommands true _ [_]). auto. Qed.

Lemma loud_getCommandOutput cmd a :
  sat (appends true (λ _, True)) failsWithDiagnostics (getCommandOutput runner cmd a).
Proof. intros st; simpl. apply (appends_addCommands true _ [_]). auto. Qed.

Lemma loud_assistTroubleshooting :
  sat (appends true (λ _, True)) failsWithDiagnostics (assistTroubleshooting runner).
Proof.
  intros st. rewrite assistTroubleshooting_eq.
  destruct (assistTroubleshootingOnError st) eqn:Hflag.
  - apply appends_addCommands. apply Forall_forall. done.
  - intros Hb. congruence.
Qed.

Lemma loud_logFatal {A} f :
  (∀ c, f ≠ CommandFailed c) →
  sat (appends true (λ _, True)) failsWithDiagnostics (@logFatal A f).
Proof.
  intros Hf st; simpl. intros Hflag. split; [done|].
  intros c ->. by destruct (Hf c).
Qed.

Lemma afterGate_runCommand r cmd a :
  mkCommand cmd a ∉ preGateCommands r →
  sat anyState (failsAfterGate r) (runCommand runner cmd a).
Proof.
  intros Hc. apply sat_runCommand; intros st; [done|].
  split; [discriminate|]. intros c [= <-]. done.
Qed.

Lemma afterGate_returns r {A} (m : M A) :
  (∀ st, ∃ a st', m st = (Return a, st')) → sat anyState (failsAfterGate r) m.
Proof. intros H st. destruct (H st) as (a & st' & ->). done. Qed.

Lemma afterGate_logFatal r {A} f :
  f ≠ NoZoneOrRegion → (∀ c, f ≠ CommandFailed c) →
  sat anyState (failsAfterGate r) (@logFatal A f).
Proof. intros Hz Hf st; simpl. split; [exact Hz|]. intros c ->. by destruct (Hf c). Qed.

Lemma onCommand_runCommand cmd a :
  sat anyState failsOnCommand (runCommand runner cmd a).
Proof. apply sat_runCommand; intros st; [done|]. by eexists. Qed.

Lemma onCommand_returns {A} (m : M A) :
  (∀ st, ∃ a st', m st = (Return a, st')) → sat anyState failsOnCommand m.
Proof. intros H st. destruct (H st) as (a & st' & ->). done. Qed.

Lemma kubectl_not_preGate r verb rest :
  verb ≠ "apply" → mkCommand "kubectl" (verb :: rest) ∉ preGateCommands r.
Proof.
  intros Hverb. unfold preGateCommands, getCredentialsCommand, dryRunApplyCommand.
  rewrite !elem_of_cons, elem_of_nil.
  intros [H|[H|[H|[H|[H|[]]]]]]; try discriminate H.
  injection H as H _. by destruct Hverb.
Qed.

Lemma apply_not_preGate r :
  mkCommand "kubectl" (kubectlApplyArgs r) ∉ preGateCommands r.
Proof.
  unfold preGateCommands, getCredentialsCommand, dryRunApplyCommand, kubectlApplyArgs.
  rewrite !elem_of_cons, elem_of_nil.
  intros [H|[H|[H|[H|[H|[]]]]]]; discriminate H.
Qed.

(** The three phase-level facts. *)
Lemma authenticateAndValidate_quiet r :
  sat (appends false notDiagnostic) failsQuietly (authenticateAndValidate runner r).
Proof.
  unfold authenticateAndValidate. unfold_reconciler.
  repeat sat_step;
    first [ apply quiet_runCommand; reflexivity
          | apply quiet_logFatal; discriminate ].
Qed.

Lemma mutatingPhase_loud r :
  sat (appends true (λ _, True)) failsWithDiagnostics (mutatingPhase runner r).
Proof.
  unfold mutatingPhase. cbv zeta. unfold_reconciler.
  repeat sat_step;
    first [ apply loud_runCommand | apply loud_runCommandExtended
          | apply loud_getCommandOutput | apply loud_assistTroubleshooting
          | apply loud_logFatal; discriminate ].
Qed.

Lemma mutatingPhase_afterGate r :
  sat anyState (failsAfterGate r) (mutatingPhase runner r).
Proof.
  unfold mutatingPhase. cbv zeta. unfold_reconciler.
  repeat sat_step;
    first [ apply afterGate_runCommand; apply kubectl_not_preGate; discriminate
          | apply afterGate_runCommand; apply apply_not_preGate
          | apply afterGate_logFatal; discriminate
          | apply afterGate_returns; intros st; eexists _, _; reflexivity
          | apply afterGate_returns; intros st;
            rewrite assistTroubleshooting_eq; eauto ].
Qed.

End ErrorPathSpecs.

(** A step made of [runCommand] calls only: its fatal exits are command
    failures. *)
Ltac only_command_failures H :=
  cbv beta in H;
  lazymatch type of H with
  | ?m ?s = (Fatal _, _) =>
      let Hs := fresh "Hcause" in
      assert (Hs : sat anyState failsOnCommand m);
      [ unfold_reconciler;
        repeat sat_step;
        first [ apply onCommand_runCommand
              | apply onCommand_returns; intros ?;
                rewrite ?assistTroubleshooting_eq; eexists _, _; reflexivity ]
      | specialize (Hs s); rewrite H in Hs; destruct Hs as [? Hs]; discriminate Hs ]
  end.

Lemma patchService_effect runner p name namespace st o st' :
  patchServiceIfRequired runner p name namespace st = (o, st') →
  ∃ cs, st' = addCommands cs st ∧
        cs `prefix_of` [ serviceTypeCommand name namespace;
                         patchCommand name namespace patchWithSourceRanges;
                         patchCommand name namespace patchWithoutSourceRanges ] ∧
        Forall notDiagnostic cs.
Proof.
  rewrite patchService_eq. cbv zeta.
  repeat match goal with
         | |- context [if ?b then _ else _] => destruct b
         end.
  all: intros [= <- <-]; eexists; (split; [symmetry; first [apply addCommands_nil | reflexivity]|]).
  all: split; [by eexists|repeat constructor].
Qed.

Lemma authenticateAndValidate_cause runner r f st :
  authenticateAndValidate runner r initState = (Fatal f, st) →
  f = NoZoneOrRegion ∨ ∃ c, f = CommandFailed c ∧ c ∈ preGateCommands r.
Proof.
  rewrite authenticateAndValidate_runAll. destruct (hasZoneOrRegion r).
  - intros H.
    pose proof (runAll_quiet runner (gateCommands r) initState eq_refl) as Hgate.
    rewrite H in Hgate. destruct Hgate as (k & c & Hk & -> & _).
    right. exists c. split; [done|].
    apply gateCommands_subseteq. by eapply list_elem_of_lookup_2.
  - intros H. apply bind_Fatal in H as [H|(a & st1 & _ & H)].
    + pose proof (runAll_quiet runner (take 3 (preGateCommands r)) initState eq_refl) as Hgate.
      rewrite H in Hgate. destruct Hgate as (k & c & Hk & -> & _).
      right. exists c. split; [done|].
      apply (subseteq_take 3). by eapply list_elem_of_lookup_2.
    + injection H as <- _. by left.
Qed.

Lemma mutatingPhase_patch_failure runner r st0 serviceType c st :
  mutatingPhase runner r st0 = (Fatal (PatchServiceFailed serviceType c), st) →
  ∃ cs, trace st = trace st0 ++ cs ∧ Forall notDiagnostic cs.
Proof.
  unfold mutatingPhase. cbv zeta. intros H.
  apply bind_Fatal in H as [H|(a & st1 & _ & H)]; [|only_command_failures H].
  destruct (tmpl r); [|discriminate H].
  apply bind_Fatal in H as [H|(a & st1 & _ & H)]; [|only_command_failures H].
  apply patchService_effect in H as (cs & -> & _ & Hcs). by exists cs.
Qed.

Lemma preGateCommands_notDiagnostic r : Forall notDiagnostic (preGateCommands r).
Proof. repeat constructor. Qed.

(** C9. Let [main] end in a fatal exit.  If the command whose failure was
    fatal is one of the authentication or cluster-credential steps or the
    dry-run validation apply, the troubleshooting flag is still unset, no
    diagnostics command has been started and the failing command is the last
    one started; the same holds, but for the last command, when the cause is
    the missing zone or region.  As long as the flag is unset no diagnostics
    command has been started.  If the command whose failure was fatal is any
    other command, the gate has been passed: the run is not a dry run, the
    flag is set, and the failing command is followed by the diagnostics
    commands, with which the trace ends.  The one fatal exit after the gate
    that does not go through [handleError], the failure of both service
    patches, leaves the flag set but has started no diagnostics command. *)
Theorem diagnostics_only_after_dry_run_gate
    (runner : Runner) (r : Resolved) (st : State) (f : FatalCause) :
  main runner r initState = (Fatal f, st) →
  (∀ c, f = CommandFailed c → c ∈ preGateCommands r →
        assistTroubleshootingOnError st = false ∧
        Forall notDiagnostic (trace st) ∧
        last (trace st) = Some c)
  ∧ (f = NoZoneOrRegion →
       assistTroubleshootingOnError st = false ∧ Forall notDiagnostic (trace st))
  ∧ (assistTroubleshootingOnError st = false → Forall notDiagnostic (trace st))
  ∧ (∀ c, f = CommandFailed c → c ∉ preGateCommands r →
          Params.DryRun (params r) = false ∧
          assistTroubleshootingOnError st = true ∧
          ∃ before, trace st = before ++ c :: diagnosticsCommands (params r))
  ∧ (assistTroubleshootingOnError st = true →
       Params.DryRun (params r) = false ∧
       ∀ c, f = CommandFailed c →
            ∃ before, trace st = before ++ c :: diagnosticsCommands (params r))
  ∧ (∀ serviceType c, f = PatchServiceFailed serviceType c →
       Params.DryRun (params r) = false ∧
       assistTroubleshootingOnError st = true ∧
       Forall notDiagnostic (trace st)).
Proof.
  rewrite main_phases. intros Hmain.
  apply bind_Fatal in Hmain as [Hauth|(a & st1 & Hauth & Hrest)].
  - pose proof (authenticateAndValidate_quiet runner r initState) as Hq.
    rewrite Hauth in Hq.
    destruct (Hq eq_refl) as (Hflag & (cs & Htr & Hcs) & Hlast).
    simpl in Htr. subst cs.
    apply authenticateAndValidate_cause in Hauth as Hcause.
    split; [auto|]. split; [auto|]. split; [auto|]. split; [|split].
    + intros c -> Hout. destruct Hcause as [Hcause|(c' & [= <-] & Hin)]; [discriminate Hcause|].
      by destruct Hout.
    + intros Htrue. congruence.
    + intros serviceType c ->.
      destruct Hcause as [Hcause|(c' & Hcause & _)]; discriminate Hcause.
  - pose proof (authenticateAndValidate_quiet runner r initState) as Hq.
    rewrite Hauth in Hq. destruct (Hq eq_refl) as (_ & _ & cs & Htr & Hcs).
    simpl in Htr. subst cs.
    destruct (Params.DryRun (params r)) eqn:Hdry; simpl in Hrest; [discriminate|].
    apply bind_Fatal in Hrest as [Hen|(a' & st2 & Hen & Hmut)]; [discriminate|].
    injection Hen as _ <-.
    pose proof (mutatingPhase_loud runner r (mkState (trace st1) true (params r))) as Hloud.
    pose proof (mutatingPhase_afterGate runner r (mkState (trace st1) true (params r))) as Hafter.
    rewrite Hmut in Hloud, Hafter.
    destruct (Hloud eq_refl) as (Hflag & Hdiag). simpl in Hdiag.
    destruct Hafter as (Hzone & Hafter).
    split; [|split; [|split; [|split; [|split]]]].
    + intros c Hc Hin. destruct (Hafter c Hc Hin).
    + intros Hf. by destruct Hzone.
    + intros Hfalse. congruence.
    + auto.
    + auto.
    + intros serviceType c ->. split; [done|]. split; [done|].
      apply mutatingPhase_patch_failure in Hmut as (cs & -> & Hcs'). simpl.
      by apply Forall_app.
Qed.

Lemma diagnostics_only_after_dry_run_gate_witness :
  let r := sampleResolved "deploy-stable" "private" false in
  let c := mkCommand "kubectl" (kubectlApplyArgs r) in
  let st := (main (failOn c) r initState).2 in
  (∀ c', CommandFailed c = CommandFailed c' → c' ∈ preGateCommands r →
         assistTroubleshootingOnError st = false ∧
         Forall notDiagnostic (trace st) ∧
         last (trace st) = Some c')
  ∧ (CommandFailed c = NoZoneOrRegion →
       assistTroubleshootingOnError st = false ∧ Forall notDiagnostic (trace st))
  ∧ (assistTroubleshootingOnError st = false → Forall notDiagnostic (trace st))
  ∧ (∀ c', CommandFailed c = CommandFailed c' → c' ∉ preGateCommands r →
           Params.DryRun (params r) = false ∧
           assistTroubleshootingOnError st = true ∧
           ∃ before, trace st = before ++ c' :: diagnosticsCommands (params r))
  ∧ (assistTroubleshootingOnError st = true →
       Params.DryRun (params r) = false ∧
       ∀ c', CommandFailed c = CommandFailed c' →
             ∃ before, trace st = before ++ c' :: diagnosticsCommands (params r))
  ∧ (∀ serviceType c', CommandFailed c = PatchServiceFailed serviceType c' →
       Params.DryRun (params r) = false ∧
       assistTroubleshootingOnError st = true ∧
       Forall notDiagnostic (trace st)).
Proof.
  apply (diagnostics_only_after_dry_run_gate
           (failOn (mkCommand "kubectl"
                      (kubectlApplyArgs (sampleResolved "deploy-stable" "private" false))))
           (sampleResolved "deploy-stable" "private" false)).
  vm_compute. reflexivity.
Defined.

(** The error paths on concrete runs: a failing dry-run apply ends the
    process right there; a failing real apply is followed by the
    diagnostics; and when the existing service is a [LoadBalancer] and both
    patches fail, the process ends after the second patch, the flag set and
    no diagnostics started. *)
Example failing_dry_run_trace :
  let r := sampleResolved "deploy-canary" "public" false in
  main (failOn (dryRunApplyCommand r)) r initState =
  (Fatal (CommandFailed (dryRunApplyCommand r)),
   mkState (preGateCommands r) false emptyParams).
Proof. vm_compute. reflexivity. Qed.

Example failing_real_apply_trace :
  let r := sampleResolved "deploy-canary" "public" false in
  let c := mkCommand "kubectl" (kubectlApplyArgs r) in
  main (failOn c) r initState =
  (Fatal (CommandFailed c),
   mkState (preGateCommands r ++ c :: diagnosticsCommands (params r)) true (params r)).
Proof. vm_compute. reflexivity. Qed.

Example failing_patches_trace :
  let r := sampleResolved "deploy-simple" "private" false in
  main loadBalancerPatchesFail r initState =
  (Fatal (PatchServiceFailed "LoadBalancer"
            (patchCommand "myapp" "mynamespace" patchWithoutSourceRanges)),
   mkState (preGateCommands r
            ++ [ serviceTypeCommand "myapp" "mynamespace";
                 patchCommand "myapp" "mynamespace" patchWithSourceRanges;
                 patchCommand "myapp" "mynamespace" patchWithoutSourceRanges ])
           true (params r)).
Proof. vm_compute. reflexivity. Qed.

(** ** Further properties of the reconciler *)

Global Instance scoped_composable r P : Composable (scoped r P) (scopedE r P).
Proof.
  assert (Htrans : ∀ x y z, scoped r P x y → scoped r P y z → scoped r P x z).
  { intros x y z Hxy Hyz Hx.
    destruct (Hxy Hx) as (Hy & cs & Ht & Hcs).
    destruct (Hyz Hy) as (Hz & cs' & Ht' & Hcs').
    split; [done|]. exists (cs ++ cs'). rewrite Ht', Ht, app_assoc.
    split; [done|]. by apply Forall_app. }
  split.
  - intros st Hst. split; [done|]. exists []. by rewrite app_nil_r.
  - exact Htrans.
  - intros x y z f. apply Htrans.
Qed.

Section ScopedSpecs.

Variable runner : Runner.
Variable r : Resolved.
Variable P : Command → Prop.
Hypothesis diagnostics_ok : Forall P (diagnosticsCommands (params r)).

Lemma scoped_addCommands cs st :
  Forall P cs → scoped r P st (addCommands cs st).
Proof. intros Hcs Hst. split; [exact Hst|]. exists cs. done. Qed.

Lemma scoped_runCommand cmd a :
  P (mkCommand cmd a) → sat (scoped r P) (scopedE r P) (runCommand runner cmd a).
Proof.
  intros Hc. apply sat_runCommand; intros st.
  - apply scoped_addCommands. auto.
  - destruct (assistTroubleshootingOnError st) eqn:Hflag.
    + intros Hst. rewrite (Hst Hflag).
      split; [intros _; exact (Hst Hflag)|].
      eexists. split; [reflexivity|]. constructor; [exact Hc|exact diagnostics_ok].
    + apply scoped_addCommands. auto.
Qed.

Lemma scoped_runCommandExtended cmd a :
  P (mkCommand cmd a) → sat (scoped r P) (scopedE r P) (runCommandExtended runner cmd a).
Proof. intros Hc st. simpl. apply (scoped_addCommands [_]). auto. Qed.

Lemma scoped_getCommandOutput cmd a :
  P (mkCommand cmd a) → sat (scoped r P) (scopedE r P) (getCommandOutput runner cmd a).
Proof. intros Hc st. simpl. apply (scoped_addCommands [_]). auto. Qed.

Lemma scoped_logFatal {A} f : sat (scoped r P) (scopedE r P) (@logFatal A f).
Proof. intros st. simpl. apply (comp_refl (Q:=scoped r P)). Qed.

Lemma scoped_assistTroubleshooting :
  sat (scoped r P) (scopedE r P) (assistTroubleshooting runner).
Proof.
  intros st. rewrite assistTroubleshooting_eq.
  destruct (assistTroubleshootingOnError st) eqn:Hflag;
    [|apply (comp_refl (E:=scopedE r P))].
  intros Hst. rewrite (Hst Hflag). split; [intros _; exact (Hst Hflag)|].
  eexists. split; [reflexivity|exact diagnostics_ok].
Qed.

Lemma scoped_enableTroubleshooting :
  sat (scoped r P) (scopedE r P) (enableTroubleshooting (params r)).
Proof.
  intros st. simpl. intros _. split; [intros _; reflexivity|].
  exists []. by rewrite app_nil_r.
Qed.

End ScopedSpecs.

(** [main] only starts commands that satisfy [P], once [P] is shown, by
    [side], for each command in its text and for the diagnostics. *)
Ltac reconciler_scoped diag side :=
  cbv zeta; unfold_reconciler;
  repeat sat_step;
  first [ apply scoped_runCommand; [exact diag | side]
        | apply scoped_runCommandExtended; side
        | apply scoped_getCommandOutput; side
        | apply scoped_logFatal
        | apply scoped_assistTroubleshooting; exact diag
        | apply scoped_enableTroubleshooting ].

Lemma scoped_from_initState r P st :
  scoped r P initState st → Forall P (trace st).
Proof.
  intros H. destruct H as (_ & cs & -> & Hcs); [|exact Hcs].
  intros Hflag. discriminate Hflag.
Qed.

Ltac delete_side :=
  unfold deleteIgnoresNotFound, kubectlApplyArgs; simpl;
  intros Hk Hd; first [ discriminate Hk | discriminate Hd | reflexivity ].

Lemma diagnostics_deleteIgnoresNotFound p :
  Forall deleteIgnoresNotFound (diagnosticsCommands p).
Proof.
  unfold diagnosticsCommands. case_bool_decide; repeat constructor; delete_side.
Qed.

(** X1. Whatever the action, the parameters and the answers of the
    runner, every [kubectl delete] that [main] starts carries
    [--ignore-not-found=true] as its last argument. *)
Theorem every_delete_ignores_not_found (runner : Runner) (r : Resolved) :
  Forall deleteIgnoresNotFound (trace (main runner r initState).2).
Proof.
  assert (H : sat (scoped r deleteIgnoresNotFound) (scopedE r deleteIgnoresNotFound)
                  (main runner r)).
  { pose proof (diagnostics_deleteIgnoresNotFound (params r)) as Hdiag.
    unfold main. reconciler_scoped Hdiag delete_side. }
  specialize (H initState).
  destruct (main runner r initState) as [[[]|f] st]; simpl;
    apply (scoped_from_initState r); exact H.
Qed.

Ltac namespaced_side :=
  unfold namespaced, kubectlApplyArgs; simpl;
  intros Hk;
  first [ discriminate Hk
        | exists 3%nat; split; [reflexivity|]; first [left; reflexivity | right; reflexivity]
        | exists 4%nat; split; [reflexivity|]; first [left; reflexivity | right; reflexivity] ].

Lemma diagnostics_namespaced r :
  Forall (namespaced r) (diagnosticsCommands (params r)).
Proof.
  unfold diagnosticsCommands. case_bool_decide; repeat constructor; namespaced_side.
Qed.

(** X2. Every [kubectl] command that [main] starts is scoped with [-n] to
    the namespace of the template data or, for the diagnostics commands, to
    the namespace of the parameters. *)
Theorem every_kubectl_command_is_namespaced (runner : Runner) (r : Resolved) :
  Forall (namespaced r) (trace (main runner r initState).2).
Proof.
  assert (H : sat (scoped r (namespaced r)) (scopedE r (namespaced r)) (main runner r)).
  { pose proof (diagnostics_namespaced r) as Hdiag.
    unfold main. reconciler_scoped Hdiag namespaced_side. }
  specialize (H initState).
  destruct (main runner r initState) as [[[]|f] st]; simpl;
    apply (scoped_from_initState r); exact H.
Qed.

(** *** Fail-fast *)

Global Instance checked_composable runner : Composable (checked runner) uncheckedE.
Proof.
  split.
  - intros st. exists []. rewrite app_nil_r. split; [done|].
    intros i c Hi. by rewrite lookup_nil in Hi.
  - intros x y z (cs & Ht & Hcs) (cs' & Ht' & Hcs').
    exists (cs ++ cs'). rewrite Ht', Ht, app_assoc. split; [done|].
    intros i c Hi Hc.
    destruct (decide (i < length cs)%nat) as [Hlt|Hge].
    + rewrite lookup_app_l in Hi by done.
      rewrite take_app_le by lia. by apply Hcs.
    + rewrite lookup_app_r in Hi by lia.
      rewrite take_app_ge by lia. rewrite app_assoc, <- Ht. by apply Hcs'.
  - done.
Qed.

Section CheckedSpecs.

Variable runner : Runner.

Lemma checked_lenient cs st :
  Forall (λ c, mustSucceed c = false) cs → checked runner st (addCommands cs st).
Proof.
  intros Hcs. exists cs. split; [done|].
  intros i c Hi Hc. rewrite Forall_lookup in Hcs.
  rewrite (Hcs i c Hi) in Hc. discriminate Hc.
Qed.

Lemma checked_runCommand cmd a :
  sat (checked runner) uncheckedE (runCommand runner cmd a).
Proof.
  intros st. rewrite runCommand_eq; simpl.
  destruct (failed _) eqn:Hfailed; [done|].
  exists [mkCommand cmd a]. split; [done|].
  intros [|i] c Hi Hc; simpl in Hi; [|by rewrite lookup_nil in Hi].
  injection Hi as <-. simpl. by rewrite app_nil_r.
Qed.

Lemma checked_runCommandExtended cmd a :
  mustSucceed (mkCommand cmd a) = false →
  sat (checked runner) uncheckedE (runCommandExtended runner cmd a).
Proof. intros Hc st. simpl. apply (checked_lenient [_]). auto. Qed.

Lemma checked_getCommandOutput cmd a :
  mustSucceed (mkCommand cmd a) = false →
  sat (checked runner) uncheckedE (getCommandOutput runner cmd a).
Proof. intros Hc st. simpl. apply (checked_lenient [_]). auto. Qed.

Lemma checked_logFatal {A} f : sat (checked runner) uncheckedE (@logFatal A f).
Proof. done. Qed.

Lemma checked_enableTroubleshooting p :
  sat (checked runner) uncheckedE (enableTroubleshooting p).
Proof.
  intros st. simpl. exists []. rewrite app_nil_r. split; [done|].
  intros i c Hi. by rewrite lookup_nil in Hi.
Qed.

Lemma checked_assistTroubleshooting :
  sat (checked runner) uncheckedE (assistTroubleshooting runner).
Proof.
  intros st. rewrite assistTroubleshooting_eq.
  destruct (assistTroubleshootingOnError st); [|apply (comp_refl (E:=uncheckedE))].
  apply checked_lenient. unfold diagnosticsCommands.
  case_bool_decide; repeat constructor.
Qed.

Lemma main_checked r : sat (checked runner) uncheckedE (main runner r).
Proof.
  unfold main; cbv zeta; unfold_reconciler.
  repeat sat_step;
    first [ apply checked_runCommand
          | apply checked_runCommandExtended; reflexivity
          | apply checked_getCommandOutput; reflexivity
          | apply checked_logFatal
          | apply checked_assistTroubleshooting
          | apply checked_enableTroubleshooting ].
Qed.

End CheckedSpecs.

(** X3. [main] returns normally only if every [gcloud] command and every
    [kubectl apply], [rollout], [scale], [delete] and [annotate] it started
    succeeded: each such command of the trace did not fail when it was
    started after the commands before it. *)
Theorem normal_return_means_every_checked_command_succeeded
    (runner : Runner) (r : Resolved) (st : State) :
  main runner r initState = (Return tt, st) →
  ∀ i c, trace st !! i = Some c → mustSucceed c = true →
         failed (runner (take i (trace st)) c) = false.
Proof.
  intros Hmain i c Hi Hc.
  pose proof (main_checked runner r initState) as H. rewrite Hmain in H.
  destruct H as (cs & Ht & Hcs). simpl in Ht. subst cs.
  exact (Hcs i c Hi Hc).
Qed.

Lemma normal_return_means_every_checked_command_succeeded_witness :
  trace (main okRunner (sampleResolved "deploy-simple" "iap" false) initState).2 !! 4%nat =
    Some (dryRunApplyCommand (sampleResolved "deploy-simple" "iap" false))
  ∧ mustSucceed (dryRunApplyCommand (sampleResolved "deploy-simple" "iap" false)) = true
  ∧ failed (okRunner
              (take 4 (trace (main okRunner (sampleResolved "deploy-simple" "iap" false) initState).2))
              (dryRunApplyCommand (sampleResolved "deploy-simple" "iap" false))) = false.
Proof.
  split; [vm_compute; reflexivity|]. split; [reflexivity|].
  apply (normal_return_means_every_checked_command_succeeded okRunner
           (sampleResolved "deploy-simple" "iap" false)).
  - vm_compute. reflexivity.
  - vm_compute. reflexivity.
  - reflexivity.
Defined.

(** *** The gate *)



Lemma mutatingPhase_extends runner r st :
  trace st `prefix_of`
    trace ((enableTroubleshooting (params r) >> mutatingPhase runner r) st).2.
Proof.
  assert (H : sat (scoped r (λ _, True)) (scopedE r (λ _, True)) (mutatingPhase runner r)).
  { assert (Hdiag : Forall (λ _ : Command, True) (diagnosticsCommands (params r)))
      by (apply Forall_forall; done).
    unfold mutatingPhase. reconciler_scoped Hdiag ltac:(exact I). }
  specialize (H (mkState (trace st) true (params r))).
  unfold enableTroubleshooting, bind. simpl.
  destruct (mutatingPhase runner r _) as [[[]|f] st']; simpl.
  all: destruct H as (_ & cs & Ht & _); [intros _; reflexivity|].
  all: simpl in Ht; rewrite Ht; by eexists.
Qed.

(** X4. If [main] has started any command other than the three
    authentication steps, the cluster-credential step and the dry-run
    validation apply, then the run is not a dry run, the credential names a
    zone or a region, and the trace begins with the commands before the gate
    (the dry-run apply among them when a template was built), each of which
    succeeded. *)
Theorem commands_beyond_gate_require_validation (runner : Runner) (r : Resolved) :
  (∃ c, c ∈ trace (main runner r initState).2 ∧ c ∉ preGateCommands r) →
  Params.DryRun (params r) = false ∧
  hasZoneOrRegion r = true ∧
  gateCommands r `prefix_of` trace (main runner r initState).2 ∧
  ∀ i c, gateCommands r !! i = Some c →
         failed (runner (take i (gateCommands r)) c) = false.
Proof.
  intros (c & Hin & Hout). rewrite main_phases in Hin |- *.
  unfold bind at 1 in Hin. unfold bind at 1.
  rewrite authenticateAndValidate_runAll in Hin |- *.
  destruct (hasZoneOrRegion r).
  - pose proof (runAll_quiet runner (gateCommands r) initState eq_refl) as Hgate.
    destruct (runAll runner (gateCommands r) initState) as [[[]|f] st1].
    + destruct Hgate as [-> Hok].
      destruct (Params.DryRun (params r)); simpl in Hin |- *.
      * destruct Hout. by apply gateCommands_subseteq.
      * split; [done|]. split; [done|]. split; [|exact Hok].
        apply (mutatingPhase_extends runner r (addCommands (gateCommands r) initState)).
    + destruct Hgate as (k & c' & _ & _ & -> & _). simpl in Hin.
      destruct Hout. apply gateCommands_subseteq.
      by apply (subseteq_take (S k)).
  - pose proof (runAll_quiet runner (take 3 (preGateCommands r)) initState eq_refl) as Hgate.
    unfold bind in Hin.
    destruct (runAll runner (take 3 (preGateCommands r)) initState) as [[[]|f] st1].
    + destruct Hgate as [-> _]. simpl in Hin.
      destruct Hout. by apply (subseteq_take 3).
    + destruct Hgate as (k & c' & _ & _ & -> & _). simpl in Hin.
      destruct Hout. apply (subseteq_take 3 (preGateCommands r)).
      by apply (subseteq_take (S k)).
Qed.

Lemma commands_beyond_gate_require_validation_witness :
  Params.DryRun (params (sampleResolved "rollback-canary" "public" false)) = false ∧
  hasZoneOrRegion (sampleResolved "rollback-canary" "public" false) = true ∧
  gateCommands (sampleResolved "rollback-canary" "public" false) `prefix_of`
    trace (main okRunner (sampleResolved "rollback-canary" "public" false) initState).2 ∧
  ∀ i c, gateCommands (sampleResolved "rollback-canary" "public" false) !! i = Some c →
         failed (okRunner (take i (gateCommands (sampleResolved "rollback-canary" "public" false))) c)
         = false.
Proof.
  apply (commands_beyond_gate_require_validation okRunner
           (sampleResolved "rollback-canary" "public" false)).
  exists (scaleCommand "myapp" "mynamespace" 0). split.
  - vm_compute. do 7 right. left.
  - apply kubectl_not_preGate. discriminate.
Defined.

(** X5. With a credential that names neither a zone nor a region, [main]
    always exits fatally before [get-credentials]: it has started at most the
    three [gcloud] authentication commands, no diagnostics, and either all
    three succeeded and the cause is the missing zone or region, or the cause
    is the failure of the last one started. *)
Theorem missing_zone_and_region_is_fatal (runner : Runner) (r : Resolved) :
  GKECredentialAdditionalProperties.Zone (credential r) = "" →
  GKECredentialAdditionalProperties.Region (credential r) = "" →
  ∃ f, (main runner r initState).1 = Fatal f ∧
       assistTroubleshootingOnError (main runner r initState).2 = false ∧
       ((f = NoZoneOrRegion ∧
         trace (main runner r initState).2 = take 3 (preGateCommands r))
        ∨ (∃ k c, take 3 (preGateCommands r) !! k = Some c ∧
                  f = CommandFailed c ∧
                  trace (main runner r initState).2 = take (S k) (take 3 (preGateCommands r)))).
Proof.
  intros Hzone Hregion.
  assert (Hnone : hasZoneOrRegion r = false)
    by (unfold hasZoneOrRegion; rewrite Hzone, Hregion; reflexivity).
  destruct (main runner r initState) as [o st] eqn:Hmain.
  rewrite main_phases in Hmain. unfold bind at 1 in Hmain.
  rewrite authenticateAndValidate_runAll, Hnone in Hmain.
  pose proof (runAll_quiet runner (take 3 (preGateCommands r)) initState eq_refl) as Hgate.
  unfold bind in Hmain.
  destruct (runAll runner (take 3 (preGateCommands r)) initState) as [[[]|f] st1].
  - destruct Hgate as [-> _]. injection Hmain as <- <-.
    exists NoZoneOrRegion. simpl.
    split; [done|]. split; [done|]. left. done.
  - destruct Hgate as (k & c & Hk & -> & -> & _). injection Hmain as <- <-.
    exists (CommandFailed c). simpl.
    split; [done|]. split; [done|]. right. eauto.
Qed.

Lemma missing_zone_and_region_is_fatal_witness :
  ∃ f, (main okRunner noZoneResolved initState).1 = Fatal f ∧
       assistTroubleshootingOnError (main okRunner noZoneResolved initState).2 = false ∧
       ((f = NoZoneOrRegion ∧
         trace (main okRunner noZoneResolved initState).2 = take 3 (preGateCommands noZoneResolved))
        ∨ (∃ k c, take 3 (preGateCommands noZoneResolved) !! k = Some c ∧
                  f = CommandFailed c ∧
                  trace (main okRunner noZoneResolved initState).2 =
                    take (S k) (take 3 (preGateCommands noZoneResolved)))).
Proof.
  apply (missing_zone_and_region_is_fatal okRunner noZoneResolved); reflexivity.
Defined.

(** *** The service patch *)


(** X6. [patchServiceIfRequired] leaves the package-level variables alone
    and starts no diagnostics command, whatever the flag.  It starts a patch
    only when the visibility is [private] and the service type printed by
    the lookup is [NodePort] or [LoadBalancer], whether or not the lookup
    itself failed; the second payload only after the first patch failed; and
    it is fatal only when both patches failed. *)
Theorem patchService_behaviour
    (runner : Runner) (p : Params.t) (name namespace : string) (st : State) :
  let lookup := serviceTypeCommand name namespace in
  let first := patchCommand name namespace patchWithSourceRanges in
  let second := patchCommand name namespace patchWithoutSourceRanges in
  let serviceType := output (runner (trace st) lookup) in
  let result := patchServiceIfRequired runner p name namespace st in
  assistTroubleshootingOnError result.2 = assistTroubleshootingOnError st ∧
  paramsForTroubleshooting result.2 = paramsForTroubleshooting st ∧
  ∃ cs, trace result.2 = trace st ++ cs ∧
        cs `prefix_of` [lookup; first; second] ∧
        Forall notDiagnostic cs ∧
        (first ∈ cs →
           Params.Visibility p = "private" ∧
           (serviceType = "NodePort" ∨ serviceType = "LoadBalancer")) ∧
        (second ∈ cs → failed (runner (trace st ++ [lookup]) first) = true) ∧
        (∀ f, result.1 = Fatal f →
              f = PatchServiceFailed serviceType second ∧
              failed (runner (trace st ++ [lookup]) first) = true ∧
              failed (runner (trace st ++ [lookup; first]) second) = true).
Proof.
  cbv zeta. rewrite patchService_eq. cbv zeta.
  destruct (bool_decide_reflect (Params.Visibility p = "private")) as [Hvis|Hvis].
  2: { simpl. split; [done|]. split; [done|]. exists [].
       rewrite app_nil_r. split; [done|]. split; [by eexists|]. split; [constructor|].
       split; [by intros ?%elem_of_nil|]. split; [by intros ?%elem_of_nil|]. done. }
  set (ty := output (runner (trace st) (serviceTypeCommand name namespace))).
  assert (Hty : bool_decide (ty = "NodePort") || bool_decide (ty = "LoadBalancer") = true →
                ty = "NodePort" ∨ ty = "LoadBalancer").
  { intros [H|H]%orb_true_iff; apply bool_decide_eq_true in H; auto. }
  assert (Hne : patchCommand name namespace patchWithSourceRanges ≠
                patchCommand name namespace patchWithoutSourceRanges)
    by (unfold patchCommand; intros [=]).
  assert (Hlookup1 : serviceTypeCommand name namespace ≠
                     patchCommand name namespace patchWithSourceRanges)
    by (unfold patchCommand, serviceTypeCommand; intros [=]).
  assert (Hlookup2 : serviceTypeCommand name namespace ≠
                     patchCommand name namespace patchWithoutSourceRanges)
    by (unfold patchCommand, serviceTypeCommand; intros [=]).
  destruct (bool_decide (ty = "NodePort") || bool_decide (ty = "LoadBalancer")) eqn:Htype.
  2: { simpl. split; [done|]. split; [done|]. eexists. split; [reflexivity|].
       split; [by eexists|]. split; [repeat constructor|].
       split; [intros [?|?%elem_of_nil]%elem_of_cons; done|].
       split; [intros [?|?%elem_of_nil]%elem_of_cons; done|]. done. }
  destruct (failed (runner (trace st ++ [_]) _)) eqn:Hfirst.
  2: { simpl. split; [done|]. split; [done|]. eexists. split; [reflexivity|].
       split; [by eexists|]. split; [repeat constructor|].
       split; [auto|].
       split; [|done].
       intros [?|[?|?%elem_of_nil]%elem_of_cons]%elem_of_cons;
         solve [ done | congruence ]. }
  destruct (failed (runner (trace st ++ [_; _]) _)) eqn:Hsecond; simpl.
  all: split; [done|]; split; [done|]; eexists; split; [reflexivity|].
  all: split; [done|]; split; [repeat constructor|].
  all: split; [auto|]; split; [auto|].
  - intros f [= <-]. auto.
  - done.
Qed.

(** *** The commands of a completed run *)




Section Returns.

Variable runner : Runner.

Lemma scaleCanaryDeployment_Return name namespace replicas st st' :
  scaleCanaryDeployment runner name namespace replicas st = (Return tt, st') →
  st' = addCommands [scaleCommand name namespace replicas] st.
Proof. apply runCommand_Return. Qed.

Lemma deleteResourcesForTypeSwitch_Return name namespace st st' :
  deleteResourcesForTypeSwitch runner name namespace st = (Return tt, st') →
  st' = addCommands (typeSwitchCommands name namespace) st.
Proof.
  unfold deleteResourcesForTypeSwitch. intros H. do 4 peel H.
  apply runCommand_Return in Hstep, Hstep0, Hstep1, Hstep2, H. subst.
  by rewrite !addCommands_addCommands.
Qed.

Lemma deleteConfigsAndSecrets_Return p name namespace st st1 st' :
  deleteConfigsForParamsChange runner p name namespace st = (Return tt, st1) →
  deleteSecretsForParamsChange runner p name namespace st1 = (Return tt, st') →
  st' = addCommands (paramsChangeCommands p name namespace) st.
Proof.
  unfold deleteConfigsForParamsChange, deleteSecretsForParamsChange, paramsChangeCommands.
  intros Hc Hs.
  destruct (bool_decide (size (ConfigsParams.Files _) = _));
    destruct (bool_decide (size (SecretsParams.Keys _) = _)).
  all: try apply runCommand_Return in Hc; try apply runCommand_Return in Hs.
  all: try (injection Hc as <-); try (injection Hs as <-); subst.
  all: rewrite ?addCommands_addCommands, ?addCommands_nil; reflexivity.
Qed.

Lemma exposure_Return p name namespace st st1 st' :
  deleteIngressForVisibilityChange runner p name namespace st = (Return tt, st1) →
  removeEstafetteCloudflareAnnotations runner p name namespace st1 = (Return tt, st') →
  st' = addCommands (exposureCommands p name namespace) st.
Proof.
  unfold deleteIngressForVisibilityChange, exposureCommands.
  intros Hi Ha. apply removeAnnotations_Return in Ha. subst st'.
  destruct (bool_decide (Params.Visibility p = "public")).
  - apply runCommand_Return in Hi. subst. by rewrite addCommands_addCommands.
  - injection Hi as <-. reflexivity.
Qed.

End Returns.

Lemma cleanup_Return runner r st st' :
  (let name := TemplateData.Name (templateData r) in
   let namespace := TemplateData.Namespace (templateData r) in
   if bool_decide (Params.Action (params r) = "deploy-canary") then
     scaleCanaryDeployment runner name namespace 1 >>
     deleteConfigsForParamsChange runner (params r) (name +:+ "-canary") namespace >>
     deleteSecretsForParamsChange runner (params r) (name +:+ "-canary") namespace
   else if bool_decide (Params.Action (params r) = "deploy-stable") then
     scaleCanaryDeployment runner name namespace 0 >>
     deleteResourcesForTypeSwitch runner name namespace >>
     deleteConfigsForParamsChange runner (params r) (name +:+ "-stable") namespace >>
     deleteSecretsForParamsChange runner (params r) (name +:+ "-stable") namespace >>
     deleteIngressForVisibilityChange runner (params r) name namespace >>
     removeEstafetteCloudflareAnnotations runner (params r) name namespace
   else if bool_decide (Params.Action (params r) = "rollback-canary") then
     scaleCanaryDeployment runner name namespace 0
   else if bool_decide (Params.Action (params r) = "deploy-simple") then
     deleteResourcesForTypeSwitch runner (name +:+ "-canary") namespace >>
     deleteResourcesForTypeSwitch runner (name +:+ "-stable") namespace >>
     deleteConfigsForParamsChange runner (params r) name namespace >>
     deleteSecretsForParamsChange runner (params r) name namespace >>
     deleteIngressForVisibilityChange runner (params r) name namespace >>
     removeEstafetteCloudflareAnnotations runner (params r) name namespace
   else ret tt) st = (Return tt, st') →
  st' = addCommands (cleanupCommands r) st.
Proof.
  cbv zeta. unfold cleanupCommands. cbv zeta. intros H.
  destruct (bool_decide (Params.Action (params r) = "deploy-canary")).
  { do 2 peel H. apply scaleCanaryDeployment_Return in Hstep.
    pose proof (deleteConfigsAndSecrets_Return _ _ _ _ _ _ _ Hstep0 H). subst.
    by rewrite addCommands_addCommands. }
  destruct (bool_decide (Params.Action (params r) = "deploy-stable")).
  { do 5 peel H. apply scaleCanaryDeployment_Return in Hstep.
    apply deleteResourcesForTypeSwitch_Return in Hstep0.
    pose proof (deleteConfigsAndSecrets_Return _ _ _ _ _ _ _ Hstep1 Hstep2).
    pose proof (exposure_Return _ _ _ _ _ _ _ Hstep3 H). subst.
    rewrite !addCommands_addCommands. simpl. rewrite <- ?app_assoc. reflexivity. }
  destruct (bool_decide (Params.Action (params r) = "rollback-canary")).
  { by apply scaleCanaryDeployment_Return in H. }
  destruct (bool_decide (Params.Action (params r) = "deploy-simple")).
  { do 5 peel H.
    apply deleteResourcesForTypeSwitch_Return in Hstep, Hstep0.
    pose proof (deleteConfigsAndSecrets_Return _ _ _ _ _ _ _ Hstep1 Hstep2).
    pose proof (exposure_Return _ _ _ _ _ _ _ Hstep3 H). subst.
    rewrite !addCommands_addCommands. simpl. rewrite <- ?app_assoc. reflexivity. }
  injection H as <-. by rewrite addCommands_nil.
Qed.

(** X7. The commands of a completed run that is not a dry run, in order:
    the commands before the gate; when a template was built, the service
    lookup and patches (a prefix of lookup, first patch, second patch), the
    real apply and the rollout wait; the clean-up commands of the action
    ([cleanupCommands]: for [rollback-canary] the scale to 0 alone, for
    [deploy-simple] the deletion of the canary and stable objects, ...); and
    the diagnostics. *)
Theorem completed_run_trace (runner : Runner) (r : Resolved) (st : State) :
  Params.DryRun (params r) = false →
  main runner r initState = (Return tt, st) →
  ∃ patching,
    patching `prefix_of`
      [ serviceTypeCommand (TemplateData.Name (templateData r)) (TemplateData.Namespace (templateData r));
        patchCommand (TemplateData.Name (templateData r)) (TemplateData.Namespace (templateData r))
          patchWithSourceRanges;
        patchCommand (TemplateData.Name (templateData r)) (TemplateData.Namespace (templateData r))
          patchWithoutSourceRanges ] ∧
    trace st =
      gateCommands r
      ++ (if tmpl r then patching ++ [applyCommand r; rolloutCommand r] else [])
      ++ cleanupCommands r
      ++ diagnosticsCommands (params r).
Proof.
  intros Hdry Hmain. rewrite main_phases in Hmain. rewrite Hdry in Hmain.
  simpl negb in Hmain. cbv iota in Hmain.
  peel Hmain. rewrite authenticateAndValidate_runAll in Hstep.
  destruct (hasZoneOrRegion r).
  2: { peel Hstep. discriminate Hstep. }
  pose proof (runAll_quiet runner (gateCommands r) initState eq_refl) as Hgate.
  rewrite Hstep in Hgate. destruct Hgate as [-> _].
  peel Hmain. injection Hstep0 as <-.
  unfold mutatingPhase in Hmain. cbv zeta in Hmain. do 2 peel Hmain.
  rename Hstep0 into Hmanifest0, Hstep1 into Hcleanup, st0 into stm.
  apply cleanup_Return in Hcleanup. subst st1.
  rewrite assistTroubleshooting_eq in Hmain.
  assert (Hmanifest : ∃ patching,
    patching `prefix_of`
      [ serviceTypeCommand (TemplateData.Name (templateData r)) (TemplateData.Namespace (templateData r));
        patchCommand (TemplateData.Name (templateData r)) (TemplateData.Namespace (templateData r))
          patchWithSourceRanges;
        patchCommand (TemplateData.Name (templateData r)) (TemplateData.Namespace (templateData r))
          patchWithoutSourceRanges ] ∧
    stm = addCommands (if tmpl r then patching ++ [applyCommand r; rolloutCommand r] else [])
            (mkState (gateCommands r) true (params r))).
  { destruct (tmpl r).
    - do 2 peel Hmanifest0.
      rename Hstep0 into Hpatching, Hstep1 into Happly, Hmanifest0 into Hrollout.
      apply patchService_effect in Hpatching as (cs & -> & Hprefix & _).
      exists cs. split; [exact Hprefix|].
      apply runCommand_Return in Happly, Hrollout. subst.
      by rewrite !addCommands_addCommands, <- ?app_assoc.
    - exists []. split; [by eexists|].
      injection Hmanifest0 as <-. by rewrite addCommands_nil. }
  destruct Hmanifest as (patching & Hprefix & ->).
  exists patching. split; [exact Hprefix|].
  simpl in Hmain. injection Hmain as <-. simpl. by rewrite <- !app_assoc.
Qed.

Lemma completed_run_trace_witness :
  ∃ patching,
    patching `prefix_of`
      [ serviceTypeCommand "myapp" "mynamespace";
        patchCommand "myapp" "mynamespace" patchWithSourceRanges;
        patchCommand "myapp" "mynamespace" patchWithoutSourceRanges ] ∧
    trace (main okRunner (sampleResolved "rollback-canary" "public" false) initState).2 =
      gateCommands (sampleResolved "rollback-canary" "public" false)
      ++ (patching ++ [applyCommand (sampleResolved "rollback-canary" "public" false);
                       rolloutCommand (sampleResolved "rollback-canary" "public" false)])
      ++ [scaleCommand "myapp" "mynamespace" 0]
      ++ diagnosticsCommands (sampleParams "rollback-canary" "public" false).
Proof.
  apply (completed_run_trace okRunner (sampleResolved "rollback-canary" "public" false)).
  - reflexivity.
  - vm_compute. reflexivity.
Defined.

(** ** Label ingestion *)

Lemma cutAtEquals_None_app a b :
  cutAtEquals a = None → cutAtEquals b = None → cutAtEquals (a +:+ b) = None.
Proof.
  induction a as [|c a IH]; simpl; [done|].
  destruct (Ascii.eqb c "="); [done|].
  destruct (cutAtEquals a) as [[]|]; [done|].
  intros _ Hb. by rewrite (IH eq_refl Hb).
Qed.

Lemma cutAtEquals_name_value name value :
  cutAtEquals name = None →
  cutAtEquals (name +:+ "=" +:+ value) = Some (name, value).
Proof.
  induction name as [|c name IH]; simpl; [done|].
  destruct (Ascii.eqb c "="); [done|].
  destruct (cutAtEquals name) as [[]|]; [done|].
  intros _. by rewrite (IH eq_refl).
Qed.

Lemma cutAtEquals_Some e name value :
  cutAtEquals e = Some (name, value) →
  e = name +:+ "=" +:+ value ∧ cutAtEquals name = None.
Proof.
  revert name. induction e as [|c e IH]; intros name; simpl; [done|].
  destruct (Ascii.eqb_spec c "=") as [->|Hc].
  - intros [= <- <-]. done.
  - destruct (cutAtEquals e) as [[n v]|]; [|done].
    intros [= <- <-]. destruct (IH n eq_refl) as [-> Hn]. simpl.
    split; [done|]. destruct (Ascii.eqb_spec c "="); [done|]. by rewrite Hn.
Qed.

Lemma prefix_app p s : String.prefix p (p +:+ s) = true.
Proof.
  induction p as [|c p IH]; simpl; [by destruct s|].
  destruct (Ascii.ascii_dec c c) as [_|Hne]; [exact IH|by destruct Hne].
Qed.

Lemma prefix_inv p s :
  String.prefix p s = true → ∃ rest, s = p +:+ rest.
Proof.
  revert s. induction p as [|c p IH]; intros s.
  - intros _. by exists s.
  - destruct s as [|d s]; simpl; [done|].
    destruct (Ascii.ascii_dec c d) as [->|]; [|done].
    intros [rest ->]%IH. by exists rest.
Qed.

Lemma substring_all s : String.substring 0 (String.length s) s = s.
Proof. induction s as [|c s IH]; simpl; [done|]. by rewrite IH. Qed.

Lemma substring_after_prefix p s :
  String.substring (String.length p) (String.length (p +:+ s) - String.length p) (p +:+ s) = s.
Proof.
  induction p as [|c p IH]; simpl.
  - rewrite Nat.sub_0_r. apply substring_all.
  - exact IH.
Qed.

Lemma Replace1_unfold old new s :
  Replace1 old new s =
  if String.prefix old s
  then new +:+ String.substring (String.length old) (String.length s - String.length old) s
  else match s with
       | EmptyString => EmptyString
       | String c rest => String c (Replace1 old new rest)
       end.
Proof. destruct s; reflexivity. Qed.

Lemma Replace1_prefix old s :
  Replace1 old "" (old +:+ s) = s.
Proof.
  rewrite Replace1_unfold, prefix_app. simpl. apply substring_after_prefix.
Qed.

Lemma append_assoc (a b c : string) : (a +:+ b) +:+ c = a +:+ (b +:+ c).
Proof.
  induction a as [|x a IH]; [done|].
  change (String x ((a +:+ b) +:+ c) = String x (a +:+ (b +:+ c))). by rewrite IH.
Qed.

Lemma cutAtEquals_None_suffix a b :
  cutAtEquals (a +:+ b) = None → cutAtEquals b = None.
Proof.
  induction a as [|c a IH]; simpl; [done|].
  destruct (Ascii.eqb c "="); [done|].
  destruct (cutAtEquals (a +:+ b)) as [[]|]; [done|]. auto.
Qed.

Lemma addLabel_labelled ToLower labels rest value :
  cutAtEquals rest = None →
  addLabel ToLower labels (labelPrefix +:+ rest +:+ "=" +:+ value) =
  <[ToLower rest := value]> labels.
Proof.
  intros Hrest. unfold addLabel, SplitN2.
  rewrite <- append_assoc.
  rewrite (cutAtEquals_name_value (labelPrefix +:+ rest) value)
    by (apply cutAtEquals_None_app; [reflexivity|exact Hrest]).
  by rewrite prefix_app, Replace1_prefix.
Qed.

Lemma addLabel_keeps ToLower key labels e :
  (∀ rest value, cutAtEquals rest = None →
                 e = labelPrefix +:+ rest +:+ "=" +:+ value → ToLower rest ≠ key) →
  addLabel ToLower labels e !! key = labels !! key.
Proof.
  intros Hother. unfold addLabel, SplitN2.
  destruct (cutAtEquals e) as [[name v]|] eqn:Hcut; [|done].
  destruct (String.prefix labelPrefix name) eqn:Hprefix; [|done].
  apply cutAtEquals_Some in Hcut as [-> Hname].
  apply prefix_inv in Hprefix as [rest ->].
  rewrite Replace1_prefix. apply lookup_insert_ne.
  apply (Hother rest v).
  - by apply cutAtEquals_None_suffix in Hname.
  - by rewrite append_assoc.
Qed.

Lemma foldl_addLabel_keeps ToLower key after labels :
  (∀ rest value, cutAtEquals rest = None →
                 (labelPrefix +:+ rest +:+ "=" +:+ value) ∈ after → ToLower rest ≠ key) →
  foldl (addLabel ToLower) labels after !! key = labels !! key.
Proof.
  revert labels. induction after as [|e after IH]; intros labels Hother; simpl; [done|].
  rewrite IH.
  - apply addLabel_keeps. intros rest value Hrest ->.
    apply (Hother rest value Hrest). by left.
  - intros rest value Hrest Hin. apply (Hother rest value Hrest). by right.
Qed.

(** X8. An environment entry [ESTAFETTE_LABEL_<rest>=<value>], with no
    [=] in [<rest>], sets the label [ToLower <rest>] to [<value>] (everything
    after the first [=], further [=] included), wherever it stands in the
    environment, unless a later entry has a name that lower-cases to the same
    key: then the later entry wins. *)
Theorem label_entry_sets_label_unless_overridden
    (ToLower : string → string) (before after : list string) (rest value : string) :
  cutAtEquals rest = None →
  (∀ rest' value', cutAtEquals rest' = None →
                   (labelPrefix +:+ rest' +:+ "=" +:+ value') ∈ after →
                   ToLower rest' ≠ ToLower rest) →
  estafetteLabelsOf ToLower (before ++ (labelPrefix +:+ rest +:+ "=" +:+ value) :: after)
    !! ToLower rest = Some value.
Proof.
  intros Hrest Hafter. unfold estafetteLabelsOf. rewrite foldl_app. simpl.
  rewrite foldl_addLabel_keeps by exact Hafter.
  rewrite addLabel_labelled by exact Hrest. apply lookup_insert_eq.
Qed.

Lemma label_entry_sets_label_unless_overridden_witness :
  estafetteLabelsOf (λ s, s)
    (["PATH=/usr/bin"] ++ (labelPrefix +:+ "TEAM" +:+ "=" +:+ "b=c")
                          :: ["ESTAFETTE_LABEL_APP=myapp"; "HOME=/root"])
    !! "TEAM" = Some "b=c".
Proof.
  apply (label_entry_sets_label_unless_overridden (λ s, s) ["PATH=/usr/bin"]
           ["ESTAFETTE_LABEL_APP=myapp"; "HOME=/root"] "TEAM" "b=c").
  - reflexivity.
  - intros rest' value' Hrest Hin ->.
    apply elem_of_cons in Hin as [Hin|Hin]; [cbv in Hin; discriminate Hin|].
    apply elem_of_cons in Hin as [Hin|Hin]; [cbv in Hin; discriminate Hin|].
    by apply elem_of_nil in Hin.
Defined.

(** X9. Every estafette label comes from an environment entry of the form
    [ESTAFETTE_LABEL_<rest>=<value>]: entries without [=] and entries whose
    name does not start with the prefix contribute nothing. *)
Theorem labels_come_from_prefixed_entries
    (ToLower : string → string) (environ : list string) (key value : string) :
  estafetteLabelsOf ToLower environ !! key = Some value →
  ∃ rest, cutAtEquals rest = None ∧
          key = ToLower rest ∧
          (labelPrefix +:+ rest +:+ "=" +:+ value) ∈ environ.
Proof.
  unfold estafetteLabelsOf.
  induction environ as [|e environ IH] using rev_ind; simpl.
  - by rewrite lookup_empty.
  - rewrite foldl_app. simpl. unfold addLabel at 1, SplitN2.
    assert (Hkeep : foldl (addLabel ToLower) ∅ environ !! key = Some value →
                    ∃ rest, cutAtEquals rest = None ∧ key = ToLower rest ∧
                            (labelPrefix +:+ rest +:+ "=" +:+ value) ∈ environ ++ [e]).
    { intros (rest & ? & ? & ?)%IH. exists rest. rewrite elem_of_app. auto. }
    destruct (cutAtEquals e) as [[name v]|] eqn:Hcut; [|exact Hkeep].
    destruct (String.prefix labelPrefix name) eqn:Hprefix; [|exact Hkeep].
    apply cutAtEquals_Some in Hcut as [-> Hname].
    apply prefix_inv in Hprefix as [rest ->].
    rewrite Replace1_prefix.
    destruct (decide (ToLower rest = key)) as [<-|Hne].
    + rewrite lookup_insert_eq. intros [= <-].
      exists rest. split; [by apply cutAtEquals_None_suffix in Hname|].
      split; [done|]. rewrite elem_of_app, append_assoc. right. rewrite elem_of_cons. by left.
    + rewrite lookup_insert_ne by done. exact Hkeep.
Qed.

Lemma labels_come_from_prefixed_entries_witness :
  ∃ rest, cutAtEquals rest = None ∧
          "APP" = (λ s : string, s) rest ∧
          (labelPrefix +:+ rest +:+ "=" +:+ "myapp") ∈
            ["HOME=/root"; "ESTAFETTE_LABEL_APP=myapp"; "ESTAFETTE_BUILD_VERSION=1.0.0"].
Proof.
  apply (labels_come_from_prefixed_entries (λ s, s)
           ["HOME=/root"; "ESTAFETTE_LABEL_APP=myapp"; "ESTAFETTE_BUILD_VERSION=1.0.0"]
           "APP" "myapp").
  vm_compute. reflexivity.
Defined.

(** ** The test helper *)

(** X10. [stringArrayContains] answers [true] exactly when the string
    occurs in the array. *)
Theorem stringArrayContains_spec (array : list string) (search : string) :
  stringArrayContains array search = true ↔ search ∈ array.
Proof.
  induction array as [|v rest IH]; simpl.
  - rewrite elem_of_nil. split; [discriminate|done].
  - rewrite elem_of_cons. case_bool_decide as Hv.
    + subst. split; auto.
    + rewrite IH. split; [auto|]. intros [->|?]; [done|auto].
Qed.

(** ** Diagnostics are best effort *)

(** X11. What the diagnostics commands answer never changes the outcome
    of an error: [handleError] on the error of command [c] ends fatally with
    that error as the cause and leaves the same state under any two
    runners. *)
Theorem diagnostics_never_mask_the_error
    (runner runner' : Runner) (c : Command) (st : State) :
  (handleError runner (Some c) st).1 = Fatal (CommandFailed c)
  ∧ handleError runner (Some c) st = handleError runner' (Some c) st.
Proof.
  unfold handleError, bind. rewrite !assistTroubleshooting_eq. done.
Qed.
